(** * nativescript-pusher, iOS bridge: the event-binding registries

    A shallow embedding of [src/channels/pusher.ios.ts]: the client
    ([TNSPusher]), the channel wrapper ([TNSPusherChannel]), the connection
    facade ([TNSPusherConnection]) and the delegate adapter
    ([PusherDelegateImpl]), over a small model of the native transport they
    drive.  JavaScript [Map<Function, string>] registries are finite maps
    from callback references to handles; mutation is explicit state
    passing; user callbacks are opaque, so calling one is recorded in the
    host's invocation log. *)

From stdpp Require Import base option list strings pretty gmap.

(** ** JavaScript values *)

(** A [Function] used as a [Map] key is compared by reference identity: a
    callback is the address of its function object (an omitted optional
    callback, [undefined], is one more key). *)
Abbreviation Callback := nat (only parsing).

(** Subscription ids are strings. *)
Abbreviation Handle := string (only parsing).

(** The raw payload, an [NSDictionary]; [objectForKey] is lookup. *)
Abbreviation Raw := (gmap string string) (only parsing).

(** [if (s)] on a string: the empty string is falsy. *)
Definition truthy (s : string) : bool :=
  match s with
  | EmptyString => false
  | String _ _ => true
  end.

(** [if (o)] on a value that may be [undefined]. *)
Definition truthy_opt (o : option string) : bool :=
  match o with
  | Some s => truthy s
  | None => false
  end.

(** [!!b] on an optional boolean. *)
Definition to_boolean (o : option bool) : bool :=
  match o with
  | Some b => b
  | None => false
  end.

Definition objectForKey (data : Raw) (k : string) : option string := data !! k.

(** ** What the bridge imports

    [./helper] ([deserialize]), [./pusher.common] ([InternalPusherEvents])
    and the native library that issues callback ids are not part of the
    bridge file; they are parameters of the development. *)
Class Platform := {
  (** the type of a deserialized payload *)
  Event : Type;
  (** [deserialize(data)]; [data] may be [null] *)
  deserialize : option Raw → Event;
  (** [InternalPusherEvents.Error], [.Ping], [.Pong] *)
  InternalPusherEvents_Error : string;
  InternalPusherEvents_Ping : string;
  InternalPusherEvents_Pong : string;
  (** the id the native library returns from its [n]-th bind *)
  callbackId : nat → Handle;
}.

(** Assumptions on the native library that theorems name when they use
    them: ids are never reused, and an id is a non-empty string. *)
Definition ids_fresh `{Platform} : Prop :=
  ∀ m n : nat, callbackId m = callbackId n → m = n.

Definition ids_truthy `{Platform} : Prop :=
  ∀ n : nat, truthy (callbackId n) = true.

(** The three internal discriminators are different strings. *)
Definition discriminators_distinct `{Platform} : Prop :=
  InternalPusherEvents_Ping ≠ InternalPusherEvents_Pong ∧
  InternalPusherEvents_Ping ≠ InternalPusherEvents_Error ∧
  InternalPusherEvents_Pong ≠ InternalPusherEvents_Error.

(** ** Enumerations *)

(** Modelled from the spec: [ConnectionStatus] of [./enums], which is not
    in the bridge file (section 3: one of CONNECTING, CONNECTED,
    DISCONNECTING, DISCONNECTED, RECONNECTING). *)
Inductive ConnectionStatus :=
  | CONNECTED
  | CONNECTING
  | DISCONNECTING
  | RECONNECTING
  | DISCONNECTED.

(** Modelled from the spec: the transport-native [ConnectionState] of the
    platform declarations (section 4.5): the four members the bridge
    names, and every other raw value of the enumeration. *)
Inductive ConnectionState :=
  | Connected
  | Connecting
  | Disconnecting
  | Reconnecting
  | OtherConnectionState (raw : nat).

(** ** Closures handed to the native library

    Each closure the bridge creates, with the variables it captures.  The
    connection closure also captures [this] and [id]: [this] is the
    connection facade of the client, and [id] is the id of the subscription
    the closure is installed under, supplied when it runs. *)
Inductive Closure :=
  | GlobalClosure (callback : Callback)
      (* TNSPusher.bind: (data) => { callback(deserialize(data)); } *)
  | ConnectionClosure (event : string) (callback : Callback).
      (* TNSPusherConnection.bind: (data) => { if (data) { ... } } *)

(** The block [TNSPusherChannel.bind] wraps in [callbackRef]; it captures
    nothing: (data) => { console.log('called'); } *)
Inductive ChannelClosure :=
  | LogCalled.

(** ** Construction options *)

(** Modelled from the spec: [Options] of [./interfaces], which is not in
    the bridge file (section 6: cluster, host, port, encrypted,
    autoReconnect, activityTimeout, all optional). *)
Record Options := mkOptions {
  cluster : option string;
  host : option string;
  port : option nat;
  encrypted : option bool;
  autoReconnect : option bool;
  activityTimeout : option nat;
}.

(** The native values the constructor builds. *)
Inductive OCPusherHost :=
  | initWithCluster (cluster : string)
  | initWithHost (host : string).

Inductive OCAuthMethod :=
  | initWithType (type : nat).

(** The arguments of
    [initWithOcAuthMethodAttemptToReturnJSONObjectAutoReconnectOcHostPortEncryptedActivityTimeout],
    in order. *)
Record PusherClientOptions := mkPusherClientOptions {
  opt_ocAuthMethod : OCAuthMethod;
  opt_attemptToReturnJSONObject : bool;
  opt_autoReconnect : bool;
  opt_ocHost : option OCPusherHost;
  opt_port : option nat;
  opt_encrypted : bool;
  opt_activityTimeout : option nat;
}.

(** ** The delegate adapter's own state *)

(** [_owner] is a [WeakRef<TNSPusher>]: the address of the client, which
    resolves in the heap of live objects. *)
Record PusherDelegateImpl := mkPusherDelegateImpl {
  _owner : nat;
}.

Definition initWithOwner (owner : nat) : PusherDelegateImpl :=
  mkPusherDelegateImpl owner.

Definition _getState (state : ConnectionState) : ConnectionStatus :=
  match state with
  | Connected => CONNECTED
  | Connecting => CONNECTING
  | Disconnecting => DISCONNECTING
  | Reconnecting => RECONNECTING
  | _ => DISCONNECTED
  end.

(** ** The native transport

    The native client and channel objects are outside the bridge; the
    spec describes them as an external collaborator (section 6): [bind]
    installs the given block under a new id and returns the id, [unbind]
    removes the block installed under an id, and a payload is handed to
    every block installed at that time. *)

(** Modelled from the spec: the calls the native objects accept (section
    6); each call received is appended to the object's log. *)
Inductive NativeCall :=
  | CallConnect
  | CallDisconnect
  | CallBind (id : Handle)
  | CallUnbind (id : Handle)
  | CallChannelBind (event : string) (id : Handle)
  | CallChannelUnbind (event : string) (id : Handle)
  | CallSubscribe (name : string)
  | CallUnsubscribe (name : string)
  | CallUnsubscribeAll.

(** Modelled from the spec: the native client, with the blocks installed
    on it in installation order, the number of ids it has issued and the
    calls it has received. *)
Record Pusher := mkPusher {
  appKey : string;
  clientOptions : option PusherClientOptions;
  delegate : option PusherDelegateImpl;
  globalCallbacks : list (Handle * Closure);
  issued : nat;
  calls : list NativeCall;
}.

(** Modelled from the spec: a native channel, with the blocks bound on
    it by event name. *)
Record PusherChannel := mkPusherChannel {
  channelName : string;
  eventHandlers : list (string * (Handle * ChannelClosure));
  channelIssued : nat;
  channelCalls : list NativeCall;
}.

Definition initWithAppKeyOptions (key : string) (o : PusherClientOptions) : Pusher :=
  mkPusher key (Some o) None [] 0 [].

Definition initWithKey (key : string) : Pusher :=
  mkPusher key None None [] 0 [].

Definition set_delegate (d : PusherDelegateImpl) (p : Pusher) : Pusher :=
  mkPusher (appKey p) (clientOptions p) (Some d) (globalCallbacks p)
    (issued p) (calls p).

Definition log_call (c : NativeCall) (p : Pusher) : Pusher :=
  mkPusher (appKey p) (clientOptions p) (delegate p) (globalCallbacks p)
    (issued p) (calls p ++ [c]).

Section native.
Context `{Platform}.

(** Modelled from the spec: [bind(block) -> handle] of the native client. *)
Definition Pusher_bind (f : Closure) (p : Pusher) : Handle * Pusher :=
  let id := callbackId (issued p) in
  (id, mkPusher (appKey p) (clientOptions p) (delegate p)
         (globalCallbacks p ++ [(id, f)]) (S (issued p))
         (calls p ++ [CallBind id])).

(** Modelled from the spec: [unbind(handle)] of the native client. *)
Definition Pusher_unbindWithCallbackId (id : Handle) (p : Pusher) : Pusher :=
  mkPusher (appKey p) (clientOptions p) (delegate p)
    (filter (λ s, s.1 ≠ id) (globalCallbacks p)) (issued p)
    (calls p ++ [CallUnbind id]).

(** Modelled from the spec: [bind(eventName, block) -> handle] of a native
    channel. *)
Definition PusherChannel_bindWithEventName (event : string) (f : ChannelClosure)
    (c : PusherChannel) : Handle * PusherChannel :=
  let id := callbackId (channelIssued c) in
  (id, mkPusherChannel (channelName c) (eventHandlers c ++ [(event, (id, f))])
         (S (channelIssued c)) (channelCalls c ++ [CallChannelBind event id])).

(** Modelled from the spec: [unbind(handle, eventName)] of a native
    channel. *)
Definition PusherChannel_unbindWithEventName (event : string) (id : Handle)
    (c : PusherChannel) : PusherChannel :=
  mkPusherChannel (channelName c)
    (filter (λ eh, ¬ (eh.1 = event ∧ eh.2.1 = id)) (eventHandlers c))
    (channelIssued c) (channelCalls c ++ [CallChannelUnbind event id]).

(** Modelled from the spec: [subscribe(name) -> channelHandle]; the two
    member blocks the bridge passes do nothing and are not kept. *)
Definition Pusher_subscribe (name : string) (p : Pusher) : PusherChannel * Pusher :=
  (mkPusherChannel name [] 0 [], log_call (CallSubscribe name) p).

(** ** The host *)

(** What a user callback is called with. *)
Inductive Arg :=
  | Parsed (e : Event)
  | Literal (s : string).

(** The host side of a run: the calls made to user callbacks, oldest
    first, and the lines written by [console.log]. *)
Record Host := mkHost {
  invoked : list (Callback * Arg);
  console : list string;
}.

Definition call (callback : Callback) (a : Arg) (h : Host) : Host :=
  mkHost (invoked h ++ [(callback, a)]) (console h).

Definition console_log (line : string) (h : Host) : Host :=
  mkHost (invoked h) (console h ++ [line]).

(** The arguments [callback] was called with, in order. *)
Definition calls_of (callback : Callback) (h : Host) : list Arg :=
  (filter (λ ia, ia.1 = callback) (invoked h)).*2.

End native.

(** ** The bridge objects *)

(** [TNSPusherConnection]: [ios] is the client's native object, kept in
    the client record below (the getter passes [this.ios]); [_state] is
    [undefined] until the delegate writes it. *)
Record TNSPusherConnection := mkTNSPusherConnection {
  _state : option ConnectionStatus;
  events : gmap nat string;
}.

Definition TNSPusherConnection_new : TNSPusherConnection :=
  mkTNSPusherConnection None ∅.

(** [get state()] *)
Definition state (c : TNSPusherConnection) : option ConnectionStatus := _state c.

Record TNSPusher := mkTNSPusher {
  ios : Pusher;
  _delegate : PusherDelegateImpl;
  _globalEvents : gmap nat string;
  _connection : option TNSPusherConnection;
}.

Record TNSPusherChannel := mkTNSPusherChannel {
  channel_ios : PusherChannel;
  _channelEvents : gmap nat string;
}.

Definition TNSPusherChannel_new (instance : PusherChannel) : TNSPusherChannel :=
  mkTNSPusherChannel instance ∅.

Definition set_ios (i : Pusher) (p : TNSPusher) : TNSPusher :=
  mkTNSPusher i (_delegate p) (_globalEvents p) (_connection p).

Definition set_connection (c : TNSPusherConnection) (p : TNSPusher) : TNSPusher :=
  mkTNSPusher (ios p) (_delegate p) (_globalEvents p) (Some c).

(** The host computed by the constructor: [null], then the cluster's host
    if [options.cluster] is truthy, then the given host if [options.host]
    is truthy. *)
Definition constructor_host (options : Options) : option OCPusherHost :=
  let host0 : option OCPusherHost := None in
  let host1 :=
    if truthy_opt (cluster options)
    then initWithCluster <$> cluster options
    else host0 in
  if truthy_opt (host options)
  then initWithHost <$> host options
  else host1.

(** [new TNSPusher(apiKey, options)], allocated at address [this]. *)
Definition TNSPusher_new (this : nat) (apiKey : string) (options : option Options)
    : TNSPusher :=
  let delegate := initWithOwner this in
  let native :=
    match options with
    | Some options =>
        let authEndpoint := initWithType 4 in
        let opts :=
          mkPusherClientOptions authEndpoint false
            (to_boolean (autoReconnect options))
            (constructor_host options)
            (port options)
            (to_boolean (encrypted options))
            (activityTimeout options) in
        initWithAppKeyOptions apiKey opts
    | None => initWithKey apiKey
    end in
  mkTNSPusher (set_delegate delegate native) delegate ∅ None.

(** The endpoint the native client was built with. *)
Definition endpoint (p : TNSPusher) : option OCPusherHost :=
  clientOptions (ios p) ≫= opt_ocHost.

Definition TNSPusher_connect (p : TNSPusher) : TNSPusher :=
  set_ios (log_call CallConnect (ios p)) p.

Definition TNSPusher_disconnect (p : TNSPusher) : TNSPusher :=
  set_ios (log_call CallDisconnect (ios p)) p.

(** [get connection()]: the facade it returns, and the client once the
    facade is cached. *)
Definition connection (p : TNSPusher) : TNSPusherConnection :=
  match _connection p with
  | Some c => c
  | None => TNSPusherConnection_new
  end.

Definition TNSPusher_connection (p : TNSPusher) : TNSPusher :=
  set_connection (connection p) p.

Definition TNSPusher_unsubscribeAll (p : TNSPusher) : TNSPusher :=
  set_ios (log_call CallUnsubscribeAll (ios p)) p.

Definition TNSPusher_unsubscribe (channelName : string) (p : TNSPusher) : TNSPusher :=
  set_ios (log_call (CallUnsubscribe channelName) (ios p)) p.

Section bridge.
Context `{Platform}.

Definition TNSPusher_bind (callback : Callback) (p : TNSPusher) : TNSPusher :=
  let '(id, native) := Pusher_bind (GlobalClosure callback) (ios p) in
  mkTNSPusher native (_delegate p) (<[callback := id]> (_globalEvents p))
    (_connection p).

Definition TNSPusher_unbind (callback : Callback) (p : TNSPusher) : TNSPusher :=
  let id := _globalEvents p !! callback in
  match id with
  | Some id' =>
      if truthy id'
      then mkTNSPusher (Pusher_unbindWithCallbackId id' (ios p)) (_delegate p)
             (delete callback (_globalEvents p)) (_connection p)
      else p
  | None => p
  end.

Definition TNSPusher_subscribe (event : string) (p : TNSPusher)
    : TNSPusherChannel * TNSPusher :=
  let '(channel, native) := Pusher_subscribe event (ios p) in
  (TNSPusherChannel_new channel, set_ios native p).

(** [TNSPusherChannel.bind]: the [NSInvocation] it builds is the call
    [bindWithEventName:callback:] on [this.ios] with [event] and the
    logging block; [ret.value] is the id that call returns. *)
Definition TNSPusherChannel_bind (event : string) (callback : Callback)
    (ch : TNSPusherChannel) : TNSPusherChannel :=
  let '(ret, native) :=
    PusherChannel_bindWithEventName event LogCalled (channel_ios ch) in
  mkTNSPusherChannel native (<[callback := ret]> (_channelEvents ch)).

(** [TNSPusherChannel.unbind]: the invocation of
    [unbindWithEventName:callbackId:] is prepared first and invoked on
    [this.ios] only when an id is recorded. *)
Definition TNSPusherChannel_unbind (event : string) (callback : Callback)
    (ch : TNSPusherChannel) : TNSPusherChannel :=
  let id := _channelEvents ch !! callback in
  match id with
  | Some id' =>
      if truthy id'
      then mkTNSPusherChannel
             (PusherChannel_unbindWithEventName event id' (channel_ios ch))
             (delete callback (_channelEvents ch))
      else ch
  | None => ch
  end.

(** [TNSPusherConnection.bind], on the facade [self] and the native object
    [self.ios] it shares with the client: the closure is installed;
    [events] is not written here but by the closure, when it runs. *)
Definition TNSPusherConnection_bind (event : string) (callback : Callback)
    (self : TNSPusherConnection) (native : Pusher) : TNSPusherConnection * Pusher :=
  let '(id, native') := Pusher_bind (ConnectionClosure event callback) native in
  (self, native').

Definition TNSPusherConnection_unbind (event : string) (callback : Callback)
    (self : TNSPusherConnection) (native : Pusher) : TNSPusherConnection * Pusher :=
  let id := events self !! callback in
  match id with
  | Some id' =>
      if truthy id'
      then (mkTNSPusherConnection (_state self) (delete callback (events self)),
            Pusher_unbindWithCallbackId id' native)
      else (self, native)
  | None => (self, native)
  end.

(** [p.connection.m(...)]: a method of the facade called through the
    client's getter, on the native object the two share. *)
Definition on_connection
    (m : TNSPusherConnection → Pusher → TNSPusherConnection * Pusher)
    (p : TNSPusher) : TNSPusher :=
  let '(c, native) := m (connection p) (ios p) in
  mkTNSPusher native (_delegate p) (_globalEvents p) (Some c).

(** ** Running the installed closures *)

(** The body of the closure of [TNSPusherConnection.bind], with [this]
    the facade [self]. *)
Definition ConnectionClosure_run (event : string) (callback : Callback)
    (id : Handle) (data : option Raw) (st : TNSPusherConnection * Host)
    : TNSPusherConnection * Host :=
  match data with
  | Some d =>
      let nativeEvent := objectForKey d "event" in
      let record (st : TNSPusherConnection * Host) (a : Arg) :=
        (mkTNSPusherConnection (_state st.1) (<[callback := id]> (events st.1)),
         call callback a st.2) in
      let st :=
        if bool_decide (event = "error" ∧
                        nativeEvent = Some InternalPusherEvents_Error)
        then record st (Parsed (deserialize data)) else st in
      let st :=
        if bool_decide (event = "ping" ∧
                        nativeEvent = Some InternalPusherEvents_Ping)
        then record st (Literal "ping") else st in
      let st :=
        if bool_decide (event = "pong" ∧
                        nativeEvent = Some InternalPusherEvents_Pong)
        then record st (Literal "pong") else st in
      st
  | None => st
  end.

(** One installed closure of the client's native object, run on [data]. *)
Definition Closure_run (id : Handle) (f : Closure) (data : option Raw)
    (st : TNSPusher * Host) : TNSPusher * Host :=
  match f with
  | GlobalClosure callback =>
      (st.1, call callback (Parsed (deserialize data)) st.2)
  | ConnectionClosure event callback =>
      let '(c, h) :=
        ConnectionClosure_run event callback id data (connection st.1, st.2) in
      (set_connection c st.1, h)
  end.

Definition ChannelClosure_run (f : ChannelClosure) (data : option Raw)
    (h : Host) : Host :=
  match f with
  | LogCalled => console_log "called" h
  end.

(** Modelled from the spec: the native client hands a payload to every
    block installed on it, oldest first. *)
Definition deliver (data : option Raw) (st : TNSPusher * Host) : TNSPusher * Host :=
  foldl (λ st s, Closure_run s.1 s.2 data st) st (globalCallbacks (ios st.1)).

(** Modelled from the spec: the native channel hands a payload of event
    [event] to every block bound to that event name, oldest first. *)
Definition deliver_channel (event : string) (data : option Raw)
    (ch : TNSPusherChannel) (h : Host) : Host :=
  foldl (λ h eh, ChannelClosure_run eh.2.2 data h) h
    (filter (λ eh, eh.1 = event) (eventHandlers (channel_ios ch))).

(** ** The delegate adapter *)

(** [this._owner.get()] in the heap of live clients: [None] once the
    client has been collected. *)
Definition WeakRef_get (r : nat) (heap : gmap nat TNSPusher) : option TNSPusher :=
  heap !! r.

Definition changedConnectionStateFromTo (self : PusherDelegateImpl)
    (old new_ : ConnectionState) (heap : gmap nat TNSPusher) : gmap nat TNSPusher :=
  let owner := WeakRef_get (_owner self) heap in
  match owner with
  | Some owner' =>
      let c := connection owner' in
      <[_owner self :=
          set_connection (mkTNSPusherConnection (Some (_getState new_)) (events c))
            owner']> heap
  | None => heap
  end.

Definition debugLogWithMessage (self : PusherDelegateImpl) (message : string)
    (heap : gmap nat TNSPusher) : gmap nat TNSPusher := heap.

Definition failedToSubscribeToChannelWithNameResponseDataError
    {NSURLResponse NSError : Type} (self : PusherDelegateImpl) (name : string)
    (response : NSURLResponse) (data : string) (error : NSError)
    (heap : gmap nat TNSPusher) : gmap nat TNSPusher :=
  let owner := WeakRef_get (_owner self) heap in
  heap.

Definition subscribedToChannelWithName (self : PusherDelegateImpl) (name : string)
    (heap : gmap nat TNSPusher) : gmap nat TNSPusher :=
  let owner := WeakRef_get (_owner self) heap in
  heap.

(** ** Runs of the client interface *)

(** The calls a program can make on a client and its connection facade,
    and a payload arriving from the transport. *)
Inductive Op :=
  | OpConnect
  | OpDisconnect
  | OpBind (callback : Callback)
  | OpUnbind (callback : Callback)
  | OpSubscribe (event : string)
  | OpUnsubscribe (channelName : string)
  | OpUnsubscribeAll
  | OpConnection
  | OpConnectionBind (event : string) (callback : Callback)
  | OpConnectionUnbind (event : string) (callback : Callback)
  | OpDeliver (data : option Raw).

Definition step (st : TNSPusher * Host) (o : Op) : TNSPusher * Host :=
  match o with
  | OpConnect => (TNSPusher_connect st.1, st.2)
  | OpDisconnect => (TNSPusher_disconnect st.1, st.2)
  | OpBind callback => (TNSPusher_bind callback st.1, st.2)
  | OpUnbind callback => (TNSPusher_unbind callback st.1, st.2)
  | OpSubscribe event => ((TNSPusher_subscribe event st.1).2, st.2)
  | OpUnsubscribe channelName => (TNSPusher_unsubscribe channelName st.1, st.2)
  | OpUnsubscribeAll => (TNSPusher_unsubscribeAll st.1, st.2)
  | OpConnection => (TNSPusher_connection st.1, st.2)
  | OpConnectionBind event callback =>
      (on_connection (TNSPusherConnection_bind event callback) st.1, st.2)
  | OpConnectionUnbind event callback =>
      (on_connection (TNSPusherConnection_unbind event callback) st.1, st.2)
  | OpDeliver data => deliver data st
  end.

Definition run (ops : list Op) (st : TNSPusher * Host) : TNSPusher * Host :=
  foldl step st ops.

(** [connection.bind(e, cb)] for each pair of [binds], in order. *)
Definition bind_all (binds : list (string * Callback))
    (st : TNSPusherConnection * Pusher) : TNSPusherConnection * Pusher :=
  foldl (λ st b, TNSPusherConnection_bind b.1 b.2 st.1 st.2) st binds.

(** The same calls as a program: [p.connection.bind(e, cb)] for each pair. *)
Definition connection_binds (binds : list (string * Callback)) : list Op :=
  (λ b, OpConnectionBind b.1 b.2) <$> binds.

(** ** Vocabulary of the statements *)

(** The calls one installed closure makes on payload [data]. *)
Definition fires (data : option Raw) (f : Closure) : list (Callback * Arg) :=
  match f with
  | GlobalClosure callback => [(callback, Parsed (deserialize data))]
  | ConnectionClosure event callback =>
      (ConnectionClosure_run event callback EmptyString data
         (TNSPusherConnection_new, mkHost [] [])).2.(invoked)
  end.

Definition is_connection_closure (f : Closure) : Prop :=
  match f with
  | ConnectionClosure _ _ => True
  | GlobalClosure _ => False
  end.

(** The ids of the installed subscriptions. *)
Definition installed (p : Pusher) : list Handle := (globalCallbacks p).*1.

(** [id] was returned by an earlier bind of the native object. *)
Definition issued_before (p : Pusher) (id : Handle) : Prop :=
  ∃ n, n < issued p ∧ id = callbackId n.

(** Every id in use was issued by the native object: those of its
    installed subscriptions, those recorded in the two registries over
    it, and those it was asked to unbind. *)
Definition ids_issued (p : TNSPusher) : Prop :=
  (∀ id, id ∈ installed (ios p) → issued_before (ios p) id) ∧
  (∀ cb id, _globalEvents p !! cb = Some id → issued_before (ios p) id) ∧
  (∀ cb id, events (connection p) !! cb = Some id → issued_before (ios p) id) ∧
  (∀ id, CallUnbind id ∈ calls (ios p) → issued_before (ios p) id).

(** The subscription of [callback] under [id] is installed, was never
    unbound, and its id is recorded nowhere: in neither registry, and
    under no connection closure, which would record it when run. *)
Definition stranded (id : Handle) (callback : Callback) (p : TNSPusher) : Prop :=
  (id, GlobalClosure callback) ∈ globalCallbacks (ios p) ∧
  issued_before (ios p) id ∧
  (∀ cb, _globalEvents p !! cb ≠ Some id) ∧
  (∀ cb, events (connection p) !! cb ≠ Some id) ∧
  (∀ e cb, (id, ConnectionClosure e cb) ∉ globalCallbacks (ios p)) ∧
  CallUnbind id ∉ calls (ios p).

End bridge.

(** ** Further runs and invariants *)

(** The calls that only reach the native object: they bind and unbind
    nothing. *)
Definition lifecycle (o : Op) : Prop :=
  match o with
  | OpConnect | OpDisconnect | OpSubscribe _ | OpUnsubscribe _
  | OpUnsubscribeAll => True
  | _ => False
  end.

(** The logical events the closure of [TNSPusherConnection.bind] tests
    for. *)
Definition internal_event (event : string) : Prop :=
  event = "error" ∨ event = "ping" ∨ event = "pong".

(** Every recorded id names an installed subscription of the very
    callback it is recorded for, and no two installed subscriptions share
    an id. *)
Definition registry_live (p : TNSPusher) : Prop :=
  NoDup ((globalCallbacks (ios p)).*1) ∧
  (∀ cb id, _globalEvents p !! cb = Some id →
            (id, GlobalClosure cb) ∈ globalCallbacks (ios p)) ∧
  (∀ cb id, events (connection p) !! cb = Some id →
            ∃ e, (id, ConnectionClosure e cb) ∈ globalCallbacks (ios p)).

(** A state-change notification as the pair (old, new), and a series of
    them handed to the adapter in order. *)
Definition notify (self : PusherDelegateImpl) (heap : gmap nat TNSPusher)
    (n : ConnectionState * ConnectionState) : gmap nat TNSPusher :=
  changedConnectionStateFromTo self n.1 n.2 heap.

Definition notify_all (self : PusherDelegateImpl)
    (ns : list (ConnectionState * ConnectionState)) (heap : gmap nat TNSPusher)
    : gmap nat TNSPusher :=
  foldl (notify self) heap ns.

(** The calls a program can make on a channel wrapper. *)
Inductive ChannelOp :=
  | ChannelBind (event : string) (callback : Callback)
  | ChannelUnbind (event : string) (callback : Callback).

Section further.
Context `{Platform}.

(** The payload is [null], or its [event] entry is none of the three
    internal discriminators (or is missing). *)
Definition unmatched (data : option Raw) : Prop :=
  match data with
  | None => True
  | Some d =>
      objectForKey d "event" ≠ Some InternalPusherEvents_Error ∧
      objectForKey d "event" ≠ Some InternalPusherEvents_Ping ∧
      objectForKey d "event" ≠ Some InternalPusherEvents_Pong
  end.

(** What the closures of [TNSPusher.bind] among [l] call on [data]. *)
Definition global_calls (data : option Raw) (l : list (Handle * Closure))
    : list (Callback * Arg) :=
  flat_map (λ s, match s.2 with
                 | GlobalClosure callback => [(callback, Parsed (deserialize data))]
                 | ConnectionClosure _ _ => []
                 end) l.

Definition channel_step (ch : TNSPusherChannel) (o : ChannelOp) : TNSPusherChannel :=
  match o with
  | ChannelBind event callback => TNSPusherChannel_bind event callback ch
  | ChannelUnbind event callback => TNSPusherChannel_unbind event callback ch
  end.

Definition channel_run (ops : list ChannelOp) (ch : TNSPusherChannel)
    : TNSPusherChannel :=
  foldl channel_step ch ops.

(** [id] was returned by an earlier bind of the native channel. *)
Definition channel_issued_before (c : PusherChannel) (id : Handle) : Prop :=
  ∃ n, n < channelIssued c ∧ id = callbackId n.

(** Every id a channel wrapper uses was issued by its native channel. *)
Definition channel_ids_issued (ch : TNSPusherChannel) : Prop :=
  (∀ eh, eh ∈ eventHandlers (channel_ios ch) →
         channel_issued_before (channel_ios ch) eh.2.1) ∧
  (∀ cb id, _channelEvents ch !! cb = Some id →
            channel_issued_before (channel_ios ch) id) ∧
  (∀ e id, CallChannelUnbind e id ∈ channelCalls (channel_ios ch) →
           channel_issued_before (channel_ios ch) id).

(** The block bound for [event] under [id] is still on the channel and
    [id] is not in the wrapper's registry. *)
Definition channel_stranded (event : string) (id : Handle) (ch : TNSPusherChannel)
    : Prop :=
  (event, (id, LogCalled)) ∈ eventHandlers (channel_ios ch) ∧
  channel_issued_before (channel_ios ch) id ∧
  (∀ cb, _channelEvents ch !! cb ≠ Some id) ∧
  (∀ e, CallChannelUnbind e id ∉ channelCalls (channel_ios ch)).

(** The connection subscription of [callback] for [event] under [id] is
    installed, is the only one under that id, was never unbound, and its
    id is in neither registry. *)
Definition muted (id : Handle) (event : string) (callback : Callback)
    (p : TNSPusher) : Prop :=
  (id, ConnectionClosure event callback) ∈ globalCallbacks (ios p) ∧
  (∀ f, (id, f) ∈ globalCallbacks (ios p) → f = ConnectionClosure event callback) ∧
  issued_before (ios p) id ∧
  (∀ cb, _globalEvents p !! cb ≠ Some id) ∧
  (∀ cb, events (connection p) !! cb ≠ Some id) ∧
  (CallUnbind id ∉ calls (ios p)).

End further.

(** ** A concrete platform

    The discriminators of the Pusher protocol, ids numbered in issue
    order, and payloads deserialized to themselves. *)
Definition demo : Platform := {|
  Event := option (gmap string string);
  deserialize := λ data, data;
  InternalPusherEvents_Error := "pusher:error";
  InternalPusherEvents_Ping := "pusher:ping";
  InternalPusherEvents_Pong := "pusher:pong";
  callbackId := λ n, "cb-" +:+ pretty n;
|}.

(** * Properties *)

Section delivery.
Context `{Platform}.

(** The calls a connection closure makes depend neither on the facade nor
    on the id it records. *)
Lemma ConnectionClosure_run_invoked event callback id data c h :
  invoked (ConnectionClosure_run event callback id data (c, h)).2 =
  invoked h ++ fires data (ConnectionClosure event callback).
Proof.
  unfold fires, ConnectionClosure_run.
  destruct data as [d|]; simpl; [|by rewrite app_nil_r].
  repeat case_bool_decide; simpl; rewrite ?app_nil_r, <- ?app_assoc; done.
Qed.

(** A connection closure leaves the facade's state alone. *)
Lemma ConnectionClosure_run_state event callback id data c h :
  _state (ConnectionClosure_run event callback id data (c, h)).1 = _state c.
Proof.
  unfold ConnectionClosure_run.
  destruct data as [d|]; simpl; [|done].
  repeat case_bool_decide; done.
Qed.

Lemma Closure_run_invoked id f data st :
  invoked (Closure_run id f data st).2 = invoked st.2 ++ fires data f.
Proof.
  destruct f as [callback|event callback]; simpl; [done|].
  pose proof (ConnectionClosure_run_invoked event callback id data
                (connection st.1) st.2) as Hrun.
  destruct (ConnectionClosure_run _ _ _ _ _) as [c h]. exact Hrun.
Qed.

(** Running a closure changes neither the native object nor the client
    registry. *)
Lemma Closure_run_ios id f data st :
  ios (Closure_run id f data st).1 = ios st.1.
Proof.
  destruct f as [callback|event callback]; simpl; [done|].
  by destruct (ConnectionClosure_run _ _ _ _ _).
Qed.

Lemma Closure_run_globalEvents id f data st :
  _globalEvents (Closure_run id f data st).1 = _globalEvents st.1.
Proof.
  destruct f as [callback|event callback]; simpl; [done|].
  by destruct (ConnectionClosure_run _ _ _ _ _).
Qed.

Lemma foldl_Closure_run_invoked data l st :
  invoked (foldl (λ st s, Closure_run s.1 s.2 data st) st l).2 =
  invoked st.2 ++ flat_map (λ s, fires data s.2) l.
Proof.
  revert st. induction l as [|s l IH]; intros st; simpl.
  - by rewrite app_nil_r.
  - rewrite IH, Closure_run_invoked. by rewrite <- app_assoc.
Qed.

Lemma foldl_Closure_run_ios data l st :
  ios (foldl (λ st s, Closure_run s.1 s.2 data st) st l).1 = ios st.1.
Proof.
  revert st. induction l as [|s l IH]; intros st; simpl; [done|].
  by rewrite IH, Closure_run_ios.
Qed.

Lemma foldl_Closure_run_globalEvents data l st :
  _globalEvents (foldl (λ st s, Closure_run s.1 s.2 data st) st l).1 =
  _globalEvents st.1.
Proof.
  revert st. induction l as [|s l IH]; intros st; simpl; [done|].
  by rewrite IH, Closure_run_globalEvents.
Qed.

(** A delivery calls exactly what the installed closures call, in
    installation order. *)
Lemma deliver_invoked data st :
  invoked (deliver data st).2 =
  invoked st.2 ++ flat_map (λ s, fires data s.2) (globalCallbacks (ios st.1)).
Proof. apply foldl_Closure_run_invoked. Qed.

Lemma deliver_ios data st : ios (deliver data st).1 = ios st.1.
Proof. apply foldl_Closure_run_ios. Qed.

(** What a connection closure calls on a payload: the three tests of its
    body exclude each other by the event name it was made for. *)
Lemma fires_ConnectionClosure d event callback :
  fires (Some d) (ConnectionClosure event callback) =
  let nativeEvent := objectForKey d "event" in
  if bool_decide (event = "error" ∧ nativeEvent = Some InternalPusherEvents_Error)
  then [(callback, Parsed (deserialize (Some d)))]
  else if bool_decide (event = "ping" ∧ nativeEvent = Some InternalPusherEvents_Ping)
  then [(callback, Literal "ping")]
  else if bool_decide (event = "pong" ∧ nativeEvent = Some InternalPusherEvents_Pong)
  then [(callback, Literal "pong")]
  else [].
Proof.
  unfold fires, ConnectionClosure_run.
  repeat case_bool_decide; simpl; try done; intuition congruence.
Qed.

Lemma fires_null f :
  is_connection_closure f → fires None f = [].
Proof. by destruct f. Qed.

(** The same by discriminator, when the discriminators differ. *)
Lemma fires_ping d event callback :
  objectForKey d "event" = Some InternalPusherEvents_Ping →
  discriminators_distinct →
  fires (Some d) (ConnectionClosure event callback) =
  if bool_decide (event = "ping") then [(callback, Literal "ping")] else [].
Proof.
  intros Hd (Hpp & Hpe & _). unfold fires, ConnectionClosure_run. rewrite Hd.
  repeat case_bool_decide; simpl; try done; intuition congruence.
Qed.

Lemma fires_error d event callback :
  objectForKey d "event" = Some InternalPusherEvents_Error →
  discriminators_distinct →
  fires (Some d) (ConnectionClosure event callback) =
  if bool_decide (event = "error")
  then [(callback, Parsed (deserialize (Some d)))] else [].
Proof.
  intros Hd (_ & Hpe & Hqe). unfold fires, ConnectionClosure_run. rewrite Hd.
  repeat case_bool_decide; simpl; try done; intuition congruence.
Qed.

End delivery.

(** ** Facts about the concrete platform *)

Lemma demo_discriminators_distinct : @discriminators_distinct demo.
Proof. by repeat split. Qed.

Lemma demo_ids_truthy : @ids_truthy demo.
Proof. by intros n. Qed.

Lemma demo_ids_fresh : @ids_fresh demo.
Proof.
  intros m n Heq. simpl in Heq.
  apply (inj pretty). by simplify_eq.
Qed.

(** ** The scenarios of the spec, evaluated *)

(** A client built with [{cluster: "mt1", encrypted: true}] subscribes to
    "order-42", binds callback 1 to "price-update" and receives a payload
    for it: the console has the line "called" and no callback was called. *)
Example channel_scenario :
  let p := TNSPusher_new 0 "key"
             (Some (mkOptions (Some "mt1") None None (Some true) None None)) in
  let ch := (TNSPusher_subscribe "order-42" p).1 in
  let ch' := @TNSPusherChannel_bind demo "price-update" 1 ch in
  endpoint p = Some (initWithCluster "mt1") ∧
  @deliver_channel demo "price-update" (Some {[ "price" := "42" ]}) ch'
    (@mkHost demo [] []) = @mkHost demo [] ["called"].
Proof. by vm_compute. Qed.

(** A global callback gets every payload, deserialized, until it is
    unbound. *)
Example global_scenario :
  invoked (@run demo [OpBind 1; OpDeliver (Some {[ "event" := "a" ]});
                      OpUnbind 1; OpDeliver (Some {[ "event" := "b" ]})]
             (TNSPusher_new 0 "key" None, @mkHost demo [] [])).2 =
  [(1, @Parsed demo (Some {[ "event" := "a" ]}))].
Proof. by vm_compute. Qed.

(** ** Channel events *)

Section channel.
Context `{Platform}.

Lemma foldl_ChannelClosure_run data (l : list (string * (Handle * ChannelClosure))) h :
  foldl (λ h eh, ChannelClosure_run eh.2.2 data h) h l =
  mkHost (invoked h) (console h ++ replicate (length l) "called").
Proof.
  revert h. induction l as [|[e [id []]] l IH]; intros h; simpl.
  - rewrite app_nil_r. by destruct h.
  - rewrite IH. simpl. by rewrite <- app_assoc.
Qed.

(** C2, on the code: after [Channel.bind(e, cb)], a delivery of a payload
    for [e] calls no user callback at all, so [cb] is called zero times
    and not once; each block bound for [e], the new one included, writes
    the line "called" to the console instead. *)
Theorem channel_delivery_calls_nothing event callback ch data h :
  let ch' := TNSPusherChannel_bind event callback ch in
  let n := length (filter (λ eh, eh.1 = event) (eventHandlers (channel_ios ch))) in
  deliver_channel event data ch' h =
    mkHost (invoked h) (console h ++ replicate (S n) "called") ∧
  calls_of callback (deliver_channel event data ch' h) = calls_of callback h.
Proof.
  simpl. unfold deliver_channel, calls_of. rewrite foldl_ChannelClosure_run.
  simpl. rewrite filter_app, length_app. simpl.
  rewrite filter_cons_True by done. simpl.
  by rewrite Nat.add_1_r.
Qed.

End channel.

(** ** Connection events *)

Section connection.
Context `{Platform}.

Lemma on_connection_bind_ios event callback p :
  ios (on_connection (TNSPusherConnection_bind event callback) p) =
  (Pusher_bind (ConnectionClosure event callback) (ios p)).2.
Proof. done. Qed.

Lemma run_connection_binds binds st :
  (globalCallbacks (ios (run (connection_binds binds) st).1)).*2 =
    (globalCallbacks (ios st.1)).*2 ++ ((λ b, ConnectionClosure b.1 b.2) <$> binds) ∧
  (run (connection_binds binds) st).2 = st.2.
Proof.
  revert st. induction binds as [|[e cb] binds IH]; intros st; simpl.
  - by rewrite app_nil_r.
  - destruct (IH (step st (OpConnectionBind e cb))) as [IH1 IH2].
    simpl in IH1, IH2. rewrite IH1, IH2. split; [|done].
    rewrite fmap_app. simpl. by rewrite <- app_assoc.
Qed.

Lemma flat_map_fires_snd data (l : list (Handle * Closure)) :
  flat_map (λ s, fires data s.2) l = flat_map (fires data) l.*2.
Proof. induction l as [|s l IH]; simpl; [done|]. by rewrite IH. Qed.

#[local] Arguments fires : simpl never.

Lemma flat_map_fires_ping d binds :
  objectForKey d "event" = Some InternalPusherEvents_Ping →
  discriminators_distinct →
  flat_map (fires (Some d)) ((λ b, ConnectionClosure b.1 b.2) <$> binds) =
  (λ b, (b.2, Literal "ping")) <$> filter (λ b, b.1 = "ping") binds.
Proof.
  intros Hd Hdist. induction binds as [|[e cb] binds IH]; csimpl; [done|].
  rewrite IH, fires_ping by done. rewrite filter_cons. simpl.
  case_bool_decide; case_decide; done.
Qed.

Lemma flat_map_fires_error d binds :
  objectForKey d "event" = Some InternalPusherEvents_Error →
  discriminators_distinct →
  flat_map (fires (Some d)) ((λ b, ConnectionClosure b.1 b.2) <$> binds) =
  (λ b, (b.2, Parsed (deserialize (Some d)))) <$> filter (λ b, b.1 = "error") binds.
Proof.
  intros Hd Hdist. induction binds as [|[e cb] binds IH]; csimpl; [done|].
  rewrite IH, fires_error by done. rewrite filter_cons. simpl.
  case_bool_decide; case_decide; done.
Qed.

(** C3: bind callbacks on a connection, [binds] giving the logical event
    and the callback of each bind, and let a payload arrive.  If its
    [event] discriminator is the internal ping value, the callbacks bound
    on the connection that are called are exactly those bound for "ping",
    each with the literal "ping" (so one bound for "pong" or "error" is
    not called); if it is the internal error value, exactly those bound
    for "error", each with the deserialized payload.  [before] is what the
    closures installed earlier call. *)
Theorem connection_demultiplexing binds st d :
  discriminators_distinct →
  let st' := run (connection_binds binds) st in
  let before := flat_map (λ s, fires (Some d) s.2) (globalCallbacks (ios st.1)) in
  (objectForKey d "event" = Some InternalPusherEvents_Ping →
   invoked (deliver (Some d) st').2 =
     invoked st.2 ++ before ++
     ((λ b, (b.2, Literal "ping")) <$> filter (λ b, b.1 = "ping") binds)) ∧
  (objectForKey d "event" = Some InternalPusherEvents_Error →
   invoked (deliver (Some d) st').2 =
     invoked st.2 ++ before ++
     ((λ b, (b.2, Parsed (deserialize (Some d)))) <$>
        filter (λ b, b.1 = "error") binds)).
Proof.
  intros Hdist st' before. subst st' before.
  destruct (run_connection_binds binds st) as [Hcl Hh].
  split; intros Hd; rewrite deliver_invoked, Hh, !flat_map_fires_snd, Hcl,
    flat_map_app.
  - by rewrite flat_map_fires_ping.
  - by rewrite flat_map_fires_error.
Qed.

End connection.

(** C3 at a ping payload of the concrete platform, with one callback bound
    for "ping", one for "pong" and one for "error". *)
Lemma connection_demultiplexing_witness :
  invoked (@deliver demo (Some {[ "event" := "pusher:ping" ]})
             (@run demo (connection_binds [("ping", 1); ("pong", 2); ("error", 3)])
                (TNSPusher_new 0 "key" None, @mkHost demo [] []))).2 =
  [(1, @Literal demo "ping")].
Proof.
  exact (proj1 (@connection_demultiplexing demo
                  [("ping", 1); ("pong", 2); ("error", 3)]
                  (TNSPusher_new 0 "key" None, @mkHost demo [] [])
                  {[ "event" := "pusher:ping" ]}
                  demo_discriminators_distinct) eq_refl).
Defined.

(** ** Unbinding a callback that is not registered *)

Section unbind_absent.

Lemma TNSPusher_unbind_lookup callback p :
  truthy_opt (_globalEvents (TNSPusher_unbind callback p) !! callback) = false.
Proof.
  unfold TNSPusher_unbind.
  destruct (_globalEvents p !! callback) as [id|] eqn:Hid; [|by rewrite Hid].
  destruct (truthy id) eqn:Ht; simpl.
  - by rewrite lookup_delete_eq.
  - by rewrite Hid.
Qed.

Lemma TNSPusherChannel_unbind_lookup event callback ch :
  truthy_opt (_channelEvents (TNSPusherChannel_unbind event callback ch) !! callback)
  = false.
Proof.
  unfold TNSPusherChannel_unbind.
  destruct (_channelEvents ch !! callback) as [id|] eqn:Hid; [|by rewrite Hid].
  destruct (truthy id) eqn:Ht; simpl.
  - by rewrite lookup_delete_eq.
  - by rewrite Hid.
Qed.

Lemma TNSPusherConnection_unbind_lookup event callback self native :
  truthy_opt (events (TNSPusherConnection_unbind event callback self native).1
                !! callback) = false.
Proof.
  unfold TNSPusherConnection_unbind.
  destruct (events self !! callback) as [id|] eqn:Hid; [|simpl; by rewrite Hid].
  destruct (truthy id) eqn:Ht; simpl.
  - by rewrite lookup_delete_eq.
  - by rewrite Hid.
Qed.

(** An unbind of a callback whose lookup is falsy changes nothing. *)
Lemma TNSPusher_unbind_falsy callback p :
  truthy_opt (_globalEvents p !! callback) = false → TNSPusher_unbind callback p = p.
Proof.
  unfold TNSPusher_unbind. destruct (_globalEvents p !! callback); simpl; [|done].
  by intros ->.
Qed.

Lemma TNSPusherChannel_unbind_falsy event callback ch :
  truthy_opt (_channelEvents ch !! callback) = false →
  TNSPusherChannel_unbind event callback ch = ch.
Proof.
  unfold TNSPusherChannel_unbind.
  destruct (_channelEvents ch !! callback); simpl; [|done]. by intros ->.
Qed.

Lemma TNSPusherConnection_unbind_falsy event callback self native :
  truthy_opt (events self !! callback) = false →
  TNSPusherConnection_unbind event callback self native = (self, native).
Proof.
  unfold TNSPusherConnection_unbind.
  destruct (events self !! callback); simpl; [|done]. by intros ->.
Qed.

(** C4: in each of the three scopes, unbinding a callback that has no
    entry in the registry returns the object as it was, registry, native
    object and its log of calls included, so no native unbind is issued;
    the functions are total, so nothing is raised.  A second unbind of the
    same callback therefore changes nothing either. *)
Theorem unbind_absent_is_noop :
  (∀ callback p,
     _globalEvents p !! callback = None → TNSPusher_unbind callback p = p) ∧
  (∀ event callback ch,
     _channelEvents ch !! callback = None →
     TNSPusherChannel_unbind event callback ch = ch) ∧
  (∀ event callback self native,
     events self !! callback = None →
     TNSPusherConnection_unbind event callback self native = (self, native)) ∧
  (∀ callback p,
     TNSPusher_unbind callback (TNSPusher_unbind callback p) =
     TNSPusher_unbind callback p) ∧
  (∀ event callback ch,
     TNSPusherChannel_unbind event callback (TNSPusherChannel_unbind event callback ch) =
     TNSPusherChannel_unbind event callback ch) ∧
  (∀ event callback self native,
     let r := TNSPusherConnection_unbind event callback self native in
     TNSPusherConnection_unbind event callback r.1 r.2 = r).
Proof.
  repeat split.
  - intros callback p Hnone. apply TNSPusher_unbind_falsy. by rewrite Hnone.
  - intros event callback ch Hnone. apply TNSPusherChannel_unbind_falsy.
    by rewrite Hnone.
  - intros event callback self native Hnone.
    apply TNSPusherConnection_unbind_falsy. by rewrite Hnone.
  - intros callback p. apply TNSPusher_unbind_falsy, TNSPusher_unbind_lookup.
  - intros event callback ch.
    apply TNSPusherChannel_unbind_falsy, TNSPusherChannel_unbind_lookup.
  - intros event callback self native r.
    rewrite (surjective_pairing r) at 3.
    apply TNSPusherConnection_unbind_falsy, TNSPusherConnection_unbind_lookup.
Qed.

End unbind_absent.

(** C4 on a client that was just constructed: unbinding callback 5, which
    was never bound, returns the client unchanged. *)
Lemma unbind_absent_is_noop_witness :
  TNSPusher_unbind 5 (TNSPusher_new 0 "key" None) = TNSPusher_new 0 "key" None.
Proof.
  exact (proj1 unbind_absent_is_noop 5 (TNSPusher_new 0 "key" None) eq_refl).
Defined.

(** ** The delegate adapter *)

(** C5: the new native state is translated by the fixed table, and when
    the owner is alive the translation is what the owner's connection
    facade holds afterwards: its [state] is that value, its registry and
    every other field of the owner and every other client are as before.
    From (Connecting, Connected) the facade's state is CONNECTED. *)
Theorem changedConnectionStateFromTo_writes_state self old new_ heap owner :
  WeakRef_get (_owner self) heap = Some owner →
  (_getState Connected = CONNECTED ∧
   _getState Connecting = CONNECTING ∧
   _getState Disconnecting = DISCONNECTING ∧
   _getState Reconnecting = RECONNECTING ∧
   ∀ raw, _getState (OtherConnectionState raw) = DISCONNECTED) ∧
  (∃ owner',
     changedConnectionStateFromTo self old new_ heap !! _owner self = Some owner' ∧
     state (connection owner') = Some (_getState new_) ∧
     events (connection owner') = events (connection owner) ∧
     ios owner' = ios owner ∧
     _delegate owner' = _delegate owner ∧
     _globalEvents owner' = _globalEvents owner) ∧
  (∀ r, r ≠ _owner self →
     changedConnectionStateFromTo self old new_ heap !! r = heap !! r) ∧
  (∃ owner',
     changedConnectionStateFromTo self Connecting Connected heap !! _owner self
       = Some owner' ∧
     state (connection owner') = Some CONNECTED).
Proof.
  intros Howner. unfold changedConnectionStateFromTo. rewrite Howner.
  split; [done|]. split; [|split].
  - eexists. rewrite lookup_insert_eq. done.
  - intros r Hr. by rewrite lookup_insert_ne.
  - eexists. rewrite lookup_insert_eq. done.
Qed.

(** C5 on a heap holding one client at address 0, notified of
    (Connecting, Reconnecting). *)
Lemma changedConnectionStateFromTo_writes_state_witness :
  ∃ owner',
    changedConnectionStateFromTo (initWithOwner 0) Connecting Reconnecting
      {[ 0 := TNSPusher_new 0 "key" None ]} !! 0 = Some owner' ∧
    state (connection owner') = Some RECONNECTING.
Proof.
  destruct (changedConnectionStateFromTo_writes_state (initWithOwner 0)
              Connecting Reconnecting {[ 0 := TNSPusher_new 0 "key" None ]}
              (TNSPusher_new 0 "key" None) (lookup_singleton_eq _ _))
    as (_ & (owner' & Hlook & Hstate & _) & _).
  exists owner'. split; [exact Hlook | exact Hstate].
Defined.

(** C8: every notification that reaches the adapter after its owner was
    collected returns the heap as it was: nothing is written, and the
    functions are total, so nothing is raised. *)
Theorem notification_without_owner_dropped
    {NSURLResponse NSError : Type} self heap :
  WeakRef_get (_owner self) heap = None →
  (∀ old new_, changedConnectionStateFromTo self old new_ heap = heap) ∧
  (∀ message, debugLogWithMessage self message heap = heap) ∧
  (∀ name (response : NSURLResponse) data (error : NSError),
     failedToSubscribeToChannelWithNameResponseDataError self name response data
       error heap = heap) ∧
  (∀ name, subscribedToChannelWithName self name heap = heap).
Proof.
  intros Hgone. unfold changedConnectionStateFromTo. by rewrite Hgone.
Qed.

(** C8 on the empty heap: the client at address 0 is gone. *)
Lemma notification_without_owner_dropped_witness :
  changedConnectionStateFromTo (initWithOwner 0) Connecting Connected ∅ = ∅.
Proof.
  exact (proj1 (@notification_without_owner_dropped unit unit (initWithOwner 0) ∅
                  (lookup_empty _)) Connecting Connected).
Defined.

(** ** The constructor's endpoint *)

(** C10 as stated fails: with [{cluster: "mt1", host: ""}] the options
    contain both values, the empty host is falsy, and the endpoint stays
    the one computed from the cluster. *)
Lemma endpoint_from_host_counterexample :
  ¬ (∀ this apiKey options c h,
       cluster options = Some c → host options = Some h →
       endpoint (TNSPusher_new this apiKey (Some options)) = Some (initWithHost h)).
Proof.
  intros Hclaim.
  specialize (Hclaim 0 "key"
                (mkOptions (Some "mt1") (Some EmptyString) None None None None)
                "mt1" EmptyString eq_refl eq_refl).
  discriminate Hclaim.
Qed.

(** C10, amended: when the options hold a non-empty [host], the endpoint
    is built from it, whatever [cluster] holds: the host computed from
    [cluster] is replaced before the native options are built. *)
Theorem endpoint_from_host this apiKey options h :
  host options = Some h →
  truthy h = true →
  constructor_host options = Some (initWithHost h) ∧
  endpoint (TNSPusher_new this apiKey (Some options)) = Some (initWithHost h).
Proof.
  intros Hhost Htruthy.
  assert (constructor_host options = Some (initWithHost h)) as Hc.
  { unfold constructor_host. rewrite Hhost. simpl. by rewrite Htruthy. }
  split; [done|]. unfold endpoint. simpl. exact Hc.
Qed.

(** C10 amended, at [{cluster: "mt1", host: "ws.example.com"}]. *)
Lemma endpoint_from_host_witness :
  endpoint (TNSPusher_new 0 "key"
              (Some (mkOptions (Some "mt1") (Some "ws.example.com")
                       None (Some true) None None)))
  = Some (initWithHost "ws.example.com").
Proof.
  exact (proj2 (endpoint_from_host 0 "key"
                  (mkOptions (Some "mt1") (Some "ws.example.com")
                     None (Some true) None None)
                  "ws.example.com" eq_refl eq_refl)).
Defined.

(** ** One subscription per connection bind *)

Section subscriptions.
Context `{Platform}.

Lemma bind_all_spec binds self native :
  let r := bind_all binds (self, native) in
  r.1 = self ∧
  globalCallbacks r.2 =
    globalCallbacks native ++
    zip (callbackId <$> seq (issued native) (length binds))
        ((λ b, ConnectionClosure b.1 b.2) <$> binds) ∧
  issued r.2 = issued native + length binds ∧
  calls r.2 =
    calls native ++ (CallBind <$> (callbackId <$> seq (issued native) (length binds))).
Proof.
  revert self native. induction binds as [|[e cb] binds IH]; intros self native.
  - simpl. rewrite !app_nil_r. auto with lia.
  - destruct (IH self (Pusher_bind (ConnectionClosure e cb) native).2)
      as (IH1 & IH2 & IH3 & IH4).
    change (bind_all ((e, cb) :: binds) (self, native))
      with (bind_all binds (self, (Pusher_bind (ConnectionClosure e cb) native).2)).
    cbn zeta. rewrite IH1, IH2, IH3, IH4. simpl.
    rewrite <- !app_assoc. simpl. auto with lia.
Qed.

Lemma NoDup_issued_ids n k : ids_fresh → NoDup (callbackId <$> seq n k).
Proof.
  intros Hfresh. apply NoDup_fmap_2_strong; [|apply NoDup_seq].
  intros i j _ _. apply Hfresh.
Qed.

(** C7: [binds] lists the logical event and the callback of each
    [Connection.bind] call.  The calls append one subscription each to
    those of the native object, in order: the i-th holds the closure made
    for the i-th event and callback, under the id issued by its own native
    bind call; the ids of the new subscriptions are pairwise different, so
    N calls leave N subscriptions more than before.  Each such closure
    answers a payload only when the event it was made for is "error",
    "ping" or "pong" and the payload carries that event's discriminator. *)
Theorem connection_bind_installs_own_subscription binds self native :
  ids_fresh →
  let r := bind_all binds (self, native) in
  let ids := callbackId <$> seq (issued native) (length binds) in
  globalCallbacks r.2 =
    globalCallbacks native ++ zip ids ((λ b, ConnectionClosure b.1 b.2) <$> binds) ∧
  calls r.2 = calls native ++ (CallBind <$> ids) ∧
  NoDup ids ∧
  length ids = length binds ∧
  length (globalCallbacks r.2) = length (globalCallbacks native) + length binds ∧
  (∀ b d, b ∈ binds →
     fires (Some d) (ConnectionClosure b.1 b.2) =
     let nativeEvent := objectForKey d "event" in
     if bool_decide (b.1 = "error" ∧ nativeEvent = Some InternalPusherEvents_Error)
     then [(b.2, Parsed (deserialize (Some d)))]
     else if bool_decide (b.1 = "ping" ∧ nativeEvent = Some InternalPusherEvents_Ping)
     then [(b.2, Literal "ping")]
     else if bool_decide (b.1 = "pong" ∧ nativeEvent = Some InternalPusherEvents_Pong)
     then [(b.2, Literal "pong")]
     else []).
Proof.
  intros Hfresh r ids. subst r ids.
  destruct (bind_all_spec binds self native) as (_ & Hcb & _ & Hcalls).
  split; [done|]. split; [done|]. split; [by apply NoDup_issued_ids|].
  split; [by rewrite length_fmap, length_seq|]. split.
  - rewrite Hcb, length_app, length_zip, !length_fmap, length_seq. lia.
  - intros b d _. apply fires_ConnectionClosure.
Qed.

End subscriptions.

(** C7 on a new native client: binds for "error", "ping" and "pong" leave
    three subscriptions, each with its own id and closure. *)
Lemma connection_bind_installs_own_subscription_witness :
  globalCallbacks
    (@bind_all demo [("error", 1); ("ping", 2); ("pong", 3)]
       (TNSPusherConnection_new, initWithKey "key")).2 =
  [("cb-0", ConnectionClosure "error" 1);
   ("cb-1", ConnectionClosure "ping" 2);
   ("cb-2", ConnectionClosure "pong" 3)].
Proof.
  exact (proj1 (@connection_bind_installs_own_subscription demo
                  [("error", 1); ("ping", 2); ("pong", 3)]
                  TNSPusherConnection_new (initWithKey "key") demo_ids_fresh)).
Defined.

(** ** Bind followed by unbind *)

Section bind_unbind.
Context `{Platform}.

Lemma filter_other_ids {A} (id : Handle) (l : list (Handle * A)) :
  id ∉ l.*1 → filter (λ s, s.1 ≠ id) l = l.
Proof.
  intros Hnotin. induction l as [|s l IH]; [done|].
  rewrite fmap_cons, not_elem_of_cons in Hnotin. destruct Hnotin as [Hs Hl].
  rewrite filter_cons_True by done. by rewrite IH.
Qed.

Lemma filter_own_id_out {A} (id : Handle) (l : list (Handle * A)) :
  id ∉ (filter (λ s, s.1 ≠ id) l).*1.
Proof.
  intros Hin. apply list_elem_of_fmap in Hin as ([id' f] & Heq & Hin).
  simpl in Heq. subst id'.
  apply list_elem_of_filter in Hin as [Hne _]. done.
Qed.

(** In the client scope the pair does what it should: the entry is gone,
    the subscription made by the bind is removed, and the native object
    saw one bind and one unbind of the same id. *)
Lemma TNSPusher_bind_unbind callback p :
  ids_truthy →
  let id := callbackId (issued (ios p)) in
  let p' := TNSPusher_unbind callback (TNSPusher_bind callback p) in
  _globalEvents p' !! callback = None ∧
  globalCallbacks (ios p') = filter (λ s, s.1 ≠ id) (globalCallbacks (ios p)) ∧
  (id ∉ installed (ios p')) ∧
  calls (ios p') = calls (ios p) ++ [CallBind id; CallUnbind id].
Proof.
  intros Htruthy id p'. subst id p'.
  unfold TNSPusher_unbind, TNSPusher_bind. simpl.
  rewrite lookup_insert_eq, Htruthy. simpl.
  rewrite lookup_delete_eq, filter_app, <- app_assoc.
  rewrite filter_cons_False, filter_nil, app_nil_r by (simpl; tauto).
  split; [done|]. split; [done|]. split; [|done].
  unfold installed. simpl. rewrite filter_app, filter_cons_False by (simpl; tauto).
  rewrite filter_nil, app_nil_r. apply filter_own_id_out.
Qed.

(** The channel scope likewise. *)
Lemma TNSPusherChannel_bind_unbind event callback ch :
  ids_truthy →
  let id := callbackId (channelIssued (channel_ios ch)) in
  let ch' := TNSPusherChannel_unbind event callback
               (TNSPusherChannel_bind event callback ch) in
  _channelEvents ch' !! callback = None ∧
  eventHandlers (channel_ios ch') =
    filter (λ eh, ¬ (eh.1 = event ∧ eh.2.1 = id)) (eventHandlers (channel_ios ch)) ∧
  channelCalls (channel_ios ch') =
    channelCalls (channel_ios ch) ++
    [CallChannelBind event id; CallChannelUnbind event id].
Proof.
  intros Htruthy id ch'. subst id ch'.
  unfold TNSPusherChannel_unbind, TNSPusherChannel_bind. simpl.
  rewrite lookup_insert_eq, Htruthy. simpl.
  rewrite lookup_delete_eq, filter_app, <- app_assoc.
  rewrite filter_cons_False, filter_nil, app_nil_r by (simpl; tauto).
  done.
Qed.

#[local] Arguments fires : simpl never.

Lemma fires_ping_bound d callback :
  objectForKey d "event" = Some InternalPusherEvents_Ping →
  fires (Some d) (ConnectionClosure "ping" callback) = [(callback, Literal "ping")].
Proof.
  intros Hd. unfold fires, ConnectionClosure_run. rewrite Hd.
  repeat case_bool_decide; simpl; try done; intuition congruence.
Qed.

Lemma on_connection_bind event callback p :
  on_connection (TNSPusherConnection_bind event callback) p =
  mkTNSPusher (Pusher_bind (ConnectionClosure event callback) (ios p)).2
    (_delegate p) (_globalEvents p) (Some (connection p)).
Proof. done. Qed.

Lemma on_connection_unbind_absent event callback p :
  events (connection p) !! callback = None →
  on_connection (TNSPusherConnection_unbind event callback) p =
  TNSPusher_connection p.
Proof.
  intros Hnone. unfold on_connection.
  rewrite TNSPusherConnection_unbind_falsy; [done|]. by rewrite Hnone.
Qed.

(** C1, on the code, connection scope: take a callback with no entry in
    the connection registry.  After [bind(event, callback)] and then
    [unbind(event, callback)] the registry has no entry for it, but only
    because the bind recorded none: the unbind finds nothing, the native
    object receives the bind and no unbind, and the subscription stays
    installed.  A ping payload that arrives afterwards calls a callback
    bound for "ping" with "ping". *)
Theorem connection_bind_unbind_stays_subscribed event callback p h d :
  events (connection p) !! callback = None →
  let id := callbackId (issued (ios p)) in
  let p' := on_connection (TNSPusherConnection_unbind event callback)
              (on_connection (TNSPusherConnection_bind event callback) p) in
  events (connection p') !! callback = None ∧
  globalCallbacks (ios p') =
    globalCallbacks (ios p) ++ [(id, ConnectionClosure event callback)] ∧
  calls (ios p') = calls (ios p) ++ [CallBind id] ∧
  (event = "ping" →
   objectForKey d "event" = Some InternalPusherEvents_Ping →
   invoked (deliver (Some d) (p', h)).2 =
     invoked (deliver (Some d) (p, h)).2 ++ [(callback, Literal "ping")]).
Proof.
  intros Hnone id p'. subst id p'.
  rewrite on_connection_bind, on_connection_unbind_absent by done.
  split; [done|]. split; [done|]. split; [done|].
  intros -> Hd. rewrite !deliver_invoked. simpl.
  rewrite flat_map_app, app_assoc. simpl. by rewrite fires_ping_bound.
Qed.

End bind_unbind.

(** C1 evaluated on a new client of the concrete platform: callback 7 is
    bound for "ping" and unbound at once, and a ping payload still
    reaches it. *)
Lemma connection_bind_unbind_stays_subscribed_witness :
  invoked (@run demo [OpConnectionBind "ping" 7; OpConnectionUnbind "ping" 7;
                      OpDeliver (Some {[ "event" := "pusher:ping" ]})]
             (TNSPusher_new 0 "key" None, @mkHost demo [] [])).2 =
  [(7, @Literal demo "ping")].
Proof.
  exact (proj2 (proj2 (proj2
    (@connection_bind_unbind_stays_subscribed demo "ping" 7
       (TNSPusher_new 0 "key" None) (@mkHost demo [] [])
       {[ "event" := "pusher:ping" ]} (lookup_empty _)))) eq_refl eq_refl).
Defined.

(** ** Binding the same callback twice *)

Section bind_twice.
Context `{Platform}.

Lemma ConnectionClosure_run_ping_events d callback id c h :
  objectForKey d "event" = Some InternalPusherEvents_Ping →
  events (ConnectionClosure_run "ping" callback id (Some d) (c, h)).1 !! callback
  = Some id.
Proof.
  intros Hd. unfold ConnectionClosure_run. rewrite Hd.
  repeat case_bool_decide; simpl; rewrite ?lookup_insert_eq; try done;
    intuition congruence.
Qed.

Lemma connection_set_connection c p : connection (set_connection c p) = c.
Proof. done. Qed.

Lemma Closure_run_ping_events d callback id st :
  objectForKey d "event" = Some InternalPusherEvents_Ping →
  events (connection (Closure_run id (ConnectionClosure "ping" callback)
                        (Some d) st).1) !! callback = Some id.
Proof.
  intros Hd. unfold Closure_run.
  pose proof (ConnectionClosure_run_ping_events d callback id
                (connection st.1) st.2 Hd) as Hrun.
  by destruct (ConnectionClosure_run _ _ _ _ _) as [c h].
Qed.

(** C6, on the code.  In the client and channel scopes a second bind of
    the same callback replaces the recorded id by the id of the second
    subscription and adds no entry.  In the connection scope a bind
    writes nothing to the registry: once a ping payload has made the
    first closure record its id, a second bind of the same callback
    installs a second subscription and the registry still holds the first
    id. *)
Theorem second_bind_registry callback event p ch h d :
  objectForKey d "event" = Some InternalPusherEvents_Ping →
  let id1 := callbackId (issued (ios p)) in
  let id2 := callbackId (S (issued (ios p))) in
  (_globalEvents (TNSPusher_bind callback (TNSPusher_bind callback p)) =
     <[callback := id2]> (_globalEvents p) ∧
   size (_globalEvents (TNSPusher_bind callback (TNSPusher_bind callback p))) =
     size (_globalEvents (TNSPusher_bind callback p))) ∧
  (_channelEvents (TNSPusherChannel_bind event callback
                     (TNSPusherChannel_bind event callback ch)) =
     <[callback := callbackId (S (channelIssued (channel_ios ch)))]>
       (_channelEvents ch) ∧
   size (_channelEvents (TNSPusherChannel_bind event callback
                           (TNSPusherChannel_bind event callback ch))) =
     size (_channelEvents (TNSPusherChannel_bind event callback ch))) ∧
  (∀ self native,
     (TNSPusherConnection_bind event callback self native).1 = self) ∧
  let st1 := run [OpConnectionBind "ping" callback; OpDeliver (Some d)] (p, h) in
  let st2 := step st1 (OpConnectionBind "ping" callback) in
  events (connection st1.1) !! callback = Some id1 ∧
  events (connection st2.1) !! callback = Some id1 ∧
  installed (ios st2.1) = installed (ios p) ++ [id1; id2].
Proof.
  intros Hd id1 id2. subst id1 id2.
  split; [|split; [|split; [done|]]].
  - unfold TNSPusher_bind. simpl. rewrite insert_insert_eq. split; [done|].
    by rewrite !map_size_insert.
  - unfold TNSPusherChannel_bind. simpl. rewrite insert_insert_eq. split; [done|].
    by rewrite !map_size_insert.
  - assert (events (connection
              (run [OpConnectionBind "ping" callback; OpDeliver (Some d)] (p, h)).1)
            !! callback = Some (callbackId (issued (ios p)))) as Hrec.
    { unfold run. simpl. unfold deliver. rewrite on_connection_bind. simpl.
      rewrite foldl_app. simpl. by apply Closure_run_ping_events. }
    cbn zeta. split; [done|]. split; [exact Hrec|].
    unfold run. simpl. unfold installed. simpl.
    rewrite deliver_ios. simpl. rewrite !fmap_app, <- app_assoc. done.
Qed.

End bind_twice.

(** C6 evaluated on a new client of the concrete platform: callback 7 is
    bound for "ping", a ping payload arrives, callback 7 is bound for
    "ping" again; two subscriptions are installed and the registry holds
    the id of the first. *)
Lemma second_bind_registry_witness :
  let st := @run demo [OpConnectionBind "ping" 7;
                       OpDeliver (Some {[ "event" := "pusher:ping" ]});
                       OpConnectionBind "ping" 7]
              (TNSPusher_new 0 "key" None, @mkHost demo [] []) in
  events (connection st.1) !! 7 = Some "cb-0" ∧
  installed (ios st.1) = ["cb-0"; "cb-1"].
Proof.
  exact (proj2 (proj2 (proj2 (proj2
    (@second_bind_registry demo 7 "ping" (TNSPusher_new 0 "key" None)
       (TNSPusherChannel_new (mkPusherChannel "order-42" [] 0 []))
       (@mkHost demo [] []) {[ "event" := "pusher:ping" ]} eq_refl))))).
Defined.

(** ** Ids in use were issued *)

Section invariants.
Context `{Platform}.

(** The registry a connection closure leaves: as it was, or with the
    callback mapped to the closure's id. *)
Lemma ConnectionClosure_run_events event callback id data c h :
  events (ConnectionClosure_run event callback id data (c, h)).1 = events c ∨
  events (ConnectionClosure_run event callback id data (c, h)).1 =
    <[callback := id]> (events c).
Proof.
  unfold ConnectionClosure_run. destruct data as [d|]; simpl; [|by left].
  repeat case_bool_decide; simpl; rewrite ?insert_insert_eq; auto.
Qed.

Lemma Closure_run_events (P : Handle → Prop) id f data st :
  (is_connection_closure f → P id) →
  (∀ cb id', events (connection st.1) !! cb = Some id' → P id') →
  ∀ cb id', events (connection (Closure_run id f data st).1) !! cb = Some id' → P id'.
Proof.
  intros Hid Hst cb id'. destruct f as [callback|event callback]; simpl.
  - apply Hst.
  - pose proof (ConnectionClosure_run_events event callback id data
                  (connection st.1) st.2) as Hcases.
    destruct (ConnectionClosure_run _ _ _ _ _) as [c h]. simpl in *.
    rewrite connection_set_connection.
    destruct Hcases as [-> | ->]; [apply Hst|].
    destruct (decide (callback = cb)) as [->|Hne].
    + rewrite lookup_insert_eq. intros [= <-]. by apply Hid.
    + rewrite lookup_insert_ne by done. apply Hst.
Qed.

Lemma foldl_Closure_run_events (P : Handle → Prop) data l st :
  (∀ s, s ∈ l → is_connection_closure s.2 → P s.1) →
  (∀ cb id', events (connection st.1) !! cb = Some id' → P id') →
  ∀ cb id',
    events (connection (foldl (λ st s, Closure_run s.1 s.2 data st) st l).1) !! cb
    = Some id' → P id'.
Proof.
  revert st. induction l as [|s l IH]; intros st Hl Hst; simpl; [done|].
  apply IH.
  - intros s' Hs'. apply Hl. by right.
  - apply Closure_run_events; [|done]. apply Hl. by left.
Qed.

Lemma deliver_events (P : Handle → Prop) data st :
  (∀ s, s ∈ globalCallbacks (ios st.1) → is_connection_closure s.2 → P s.1) →
  (∀ cb id', events (connection st.1) !! cb = Some id' → P id') →
  ∀ cb id', events (connection (deliver data st).1) !! cb = Some id' → P id'.
Proof. apply foldl_Closure_run_events. Qed.

Lemma deliver_globalEvents data st :
  _globalEvents (deliver data st).1 = _globalEvents st.1.
Proof. apply foldl_Closure_run_globalEvents. Qed.

Lemma issued_before_mono p p' id :
  issued p ≤ issued p' → issued_before p id → issued_before p' id.
Proof. intros Hle (n & Hn & ->). exists n. split; [lia|done]. Qed.

Lemma issued_before_fresh p id :
  ids_fresh → issued_before p id → id ≠ callbackId (issued p).
Proof. intros Hfresh (n & Hn & ->) Heq. apply Hfresh in Heq. lia. Qed.

(** A new client uses no id at all. *)
Lemma ids_issued_new this apiKey options :
  ids_issued (TNSPusher_new this apiKey options).
Proof.
  unfold ids_issued, TNSPusher_new, installed.
  destruct options as [o|]; simpl; repeat split; intros *;
    rewrite ?lookup_empty; try done; by intros ?%elem_of_nil.
Qed.

End invariants.

Section reachable.
Context `{Platform}.

Lemma connection_TNSPusher_connection p :
  connection (TNSPusher_connection p) = connection p.
Proof. done. Qed.

Lemma ids_issued_log_call c p :
  (∀ id, c ≠ CallUnbind id) →
  ids_issued p → ids_issued (set_ios (log_call c (ios p)) p).
Proof.
  intros Hc (Hinst & Hreg & Hev & Hcalls).
  repeat split; simpl; [done..|].
  intros id [Hin|Hin%list_elem_of_singleton]%elem_of_app; [by apply Hcalls|].
  by destruct (Hc id).
Qed.

Lemma issued_before_bind f p id :
  issued_before p id ∨ id = callbackId (issued p) →
  issued_before (Pusher_bind f p).2 id.
Proof.
  intros [Hid| ->].
  - eapply issued_before_mono; [|done]. simpl. lia.
  - exists (issued p). simpl. split; [lia|done].
Qed.

Lemma installed_bind f p :
  installed (Pusher_bind f p).2 = installed p ++ [callbackId (issued p)].
Proof. unfold installed. simpl. by rewrite fmap_app. Qed.

Lemma installed_unbind id p id' :
  id' ∈ installed (Pusher_unbindWithCallbackId id p) → id' ∈ installed p.
Proof.
  unfold installed. simpl. intros Hin.
  apply list_elem_of_fmap in Hin as (s & -> & Hs).
  apply list_elem_of_filter in Hs as [_ Hs].
  apply list_elem_of_fmap. by exists s.
Qed.

Lemma TNSPusher_bind_eq callback p :
  TNSPusher_bind callback p =
  mkTNSPusher (Pusher_bind (GlobalClosure callback) (ios p)).2 (_delegate p)
    (<[callback := callbackId (issued (ios p))]> (_globalEvents p))
    (_connection p).
Proof. done. Qed.

Lemma calls_bind f p :
  calls (Pusher_bind f p).2 = calls p ++ [CallBind (callbackId (issued p))].
Proof. done. Qed.

Lemma ids_issued_TNSPusher_bind callback p :
  ids_issued p → ids_issued (TNSPusher_bind callback p).
Proof.
  intros (Hinst & Hreg & Hev & Hcalls). rewrite TNSPusher_bind_eq.
  unfold ids_issued.
  cbn [ios _globalEvents connection _connection]. rewrite calls_bind.
  repeat split.
  - intros id. rewrite installed_bind, elem_of_app. intros [Hin|Hin].
    + apply (issued_before_bind (GlobalClosure callback)). left. by apply Hinst.
    + apply list_elem_of_singleton in Hin as ->.
      apply (issued_before_bind (GlobalClosure callback)). by right.
  - intros cb id. destruct (decide (callback = cb)) as [->|Hne].
    + rewrite lookup_insert_eq. intros [= <-].
      apply (issued_before_bind (GlobalClosure cb)). by right.
    + rewrite lookup_insert_ne by done. intros Hcb.
      apply (issued_before_bind (GlobalClosure callback)). left. by eapply Hreg.
  - intros cb id Hcb.
    apply (issued_before_bind (GlobalClosure callback)). left. by eapply Hev.
  - intros id Hin. apply (issued_before_bind (GlobalClosure callback)). left.
    apply elem_of_app in Hin as [Hin|Hin]; [by apply Hcalls|].
    by apply list_elem_of_singleton in Hin.
Qed.

Lemma ids_issued_TNSPusher_unbind callback p :
  ids_issued p → ids_issued (TNSPusher_unbind callback p).
Proof.
  intros Hp. unfold TNSPusher_unbind.
  destruct (_globalEvents p !! callback) as [id'|] eqn:Hlook; [|done].
  destruct (truthy id'); [|done].
  destruct Hp as (Hinst & Hreg & Hev & Hcalls).
  repeat split; simpl.
  - intros id Hin. by eapply Hinst, installed_unbind.
  - intros cb id Hcb. apply lookup_delete_Some in Hcb as [_ Hcb]. by eapply Hreg.
  - done.
  - intros id Hin. apply elem_of_app in Hin as [Hin|Hin]; [by apply Hcalls|].
    apply list_elem_of_singleton in Hin as [= ->]. by eapply Hreg.
Qed.

Lemma ids_issued_connection_bind event callback p :
  ids_issued p →
  ids_issued (on_connection (TNSPusherConnection_bind event callback) p).
Proof.
  intros (Hinst & Hreg & Hev & Hcalls). rewrite on_connection_bind.
  unfold ids_issued.
  cbn [ios _globalEvents connection _connection]. rewrite calls_bind.
  repeat split.
  - intros id. rewrite installed_bind, elem_of_app. intros [Hin|Hin].
    + apply (issued_before_bind (ConnectionClosure event callback)). left.
      by apply Hinst.
    + apply list_elem_of_singleton in Hin as ->.
      apply (issued_before_bind (ConnectionClosure event callback)). by right.
  - intros cb id Hcb.
    apply (issued_before_bind (ConnectionClosure event callback)). left.
    by eapply Hreg.
  - intros cb id Hcb.
    apply (issued_before_bind (ConnectionClosure event callback)). left.
    by eapply Hev.
  - intros id Hin.
    apply (issued_before_bind (ConnectionClosure event callback)). left.
    apply elem_of_app in Hin as [Hin|Hin]; [by apply Hcalls|].
    by apply list_elem_of_singleton in Hin.
Qed.

Lemma ids_issued_connection_unbind event callback p :
  ids_issued p →
  ids_issued (on_connection (TNSPusherConnection_unbind event callback) p).
Proof.
  intros Hp. unfold on_connection, TNSPusherConnection_unbind.
  destruct (events (connection p) !! callback) as [id'|] eqn:Hlook; [|done].
  destruct (truthy id'); [|done].
  destruct Hp as (Hinst & Hreg & Hev & Hcalls).
  repeat split; simpl.
  - intros id Hin. by eapply Hinst, installed_unbind.
  - done.
  - intros cb id Hcb. apply lookup_delete_Some in Hcb as [_ Hcb]. by eapply Hev.
  - intros id Hin. apply elem_of_app in Hin as [Hin|Hin]; [by apply Hcalls|].
    apply list_elem_of_singleton in Hin as [= ->]. by eapply Hev.
Qed.

Lemma ids_issued_deliver data st :
  ids_issued st.1 → ids_issued (deliver data st).1.
Proof.
  intros (Hinst & Hreg & Hev & Hcalls). unfold ids_issued.
  rewrite deliver_ios, deliver_globalEvents.
  split; [done|]. split; [done|]. split; [|done].
  apply (deliver_events (issued_before (ios st.1))); [|done].
  intros s Hs _. apply Hinst, list_elem_of_fmap. by exists s.
Qed.

(** Every step of a run keeps the ids in use among those issued. *)
Lemma ids_issued_step st o : ids_issued st.1 → ids_issued (step st o).1.
Proof.
  intros Hp. destruct o; simpl;
    try (apply ids_issued_log_call; [by intros ?|done]).
  - by apply ids_issued_TNSPusher_bind.
  - by apply ids_issued_TNSPusher_unbind.
  - done.
  - by apply ids_issued_connection_bind.
  - by apply ids_issued_connection_unbind.
  - by apply ids_issued_deliver.
Qed.

Lemma ids_issued_run ops st : ids_issued st.1 → ids_issued (run ops st).1.
Proof.
  revert st. induction ops as [|o ops IH]; intros st Hst; [done|].
  apply IH. by apply ids_issued_step.
Qed.

End reachable.

(** ** A subscription whose id was overwritten *)

Section stranded.
Context `{Platform}.
Hypothesis Hfresh : ids_fresh.

Lemma stranded_log_call id callback c p :
  c ≠ CallUnbind id →
  stranded id callback p → stranded id callback (set_ios (log_call c (ios p)) p).
Proof.
  intros Hc (Hin & Hiss & Hreg & Hev & Hcl & Hcalls).
  repeat split; simpl; [done..|].
  rewrite not_elem_of_app, not_elem_of_cons. split; [done|]. split; [done|].
  apply not_elem_of_nil.
Qed.

Lemma stranded_after_bind id callback f p g c :
  stranded id callback (mkTNSPusher (ios p) (_delegate p) g c) →
  stranded id callback (mkTNSPusher (Pusher_bind f (ios p)).2 (_delegate p) g c).
Proof.
  intros (Hin & Hiss & Hreg & Hev & Hcl & Hcalls).
  pose proof (issued_before_fresh _ _ Hfresh Hiss) as Hne.
  unfold stranded in *. cbn [ios _globalEvents connection _connection] in *.
  rewrite calls_bind. simpl globalCallbacks.
  split; [apply elem_of_app; by left|].
  split; [apply (issued_before_bind f); by left|].
  split; [done|]. split; [done|]. split.
  - intros e cb [Hold|Hnew]%elem_of_app; [by eapply Hcl|].
    apply list_elem_of_singleton in Hnew. by simplify_eq.
  - rewrite not_elem_of_app, not_elem_of_cons. split; [done|]. split; [done|].
    apply not_elem_of_nil.
Qed.

Lemma stranded_TNSPusher_bind id callback cb p :
  stranded id callback p → stranded id callback (TNSPusher_bind cb p).
Proof.
  intros Hs. rewrite TNSPusher_bind_eq. apply stranded_after_bind.
  destruct Hs as (Hin & Hiss & Hreg & Hev & Hcl & Hcalls).
  pose proof (issued_before_fresh _ _ Hfresh Hiss) as Hne.
  repeat split; try done. simpl. intros cb'.
  destruct (decide (cb = cb')) as [->|Hcb].
  - rewrite lookup_insert_eq. congruence.
  - rewrite lookup_insert_ne by done. apply Hreg.
Qed.

Lemma stranded_after_unbind id callback id' p g c :
  id' ≠ id →
  stranded id callback (mkTNSPusher (ios p) (_delegate p) g c) →
  stranded id callback
    (mkTNSPusher (Pusher_unbindWithCallbackId id' (ios p)) (_delegate p) g c).
Proof.
  intros Hne (Hin & Hiss & Hreg & Hev & Hcl & Hcalls).
  unfold stranded in *. cbn [ios _globalEvents connection _connection] in *.
  simpl. split; [apply list_elem_of_filter; split; [|done]; simpl; congruence|].
  split; [done|]. split; [done|]. split; [done|]. split.
  - intros e cb [_ Hold]%list_elem_of_filter. by eapply Hcl.
  - rewrite not_elem_of_app, not_elem_of_cons. split; [done|].
    split; [congruence|]. apply not_elem_of_nil.
Qed.

Lemma stranded_TNSPusher_unbind id callback cb p :
  stranded id callback p → stranded id callback (TNSPusher_unbind cb p).
Proof.
  intros Hs. unfold TNSPusher_unbind.
  destruct (_globalEvents p !! cb) as [id'|] eqn:Hlook; [|done].
  destruct (truthy id'); [|done].
  apply stranded_after_unbind.
  - intros ->. destruct Hs as (_ & _ & Hreg & _). by apply (Hreg cb).
  - destruct Hs as (Hin & Hiss & Hreg & Hev & Hcl & Hcalls).
    repeat split; try done. simpl. intros cb' Hcb'.
    apply lookup_delete_Some in Hcb' as [_ Hcb']. by apply (Hreg cb').
Qed.

Lemma stranded_connection_bind id callback event cb p :
  stranded id callback p →
  stranded id callback (on_connection (TNSPusherConnection_bind event cb) p).
Proof.
  intros Hs. rewrite on_connection_bind. by apply stranded_after_bind.
Qed.

Lemma stranded_connection_unbind id callback event cb p :
  stranded id callback p →
  stranded id callback (on_connection (TNSPusherConnection_unbind event cb) p).
Proof.
  intros Hs. unfold on_connection, TNSPusherConnection_unbind.
  destruct (events (connection p) !! cb) as [id'|] eqn:Hlook; [|done].
  destruct (truthy id'); [|done].
  apply stranded_after_unbind.
  - intros ->. destruct Hs as (_ & _ & _ & Hev & _). by apply (Hev cb).
  - destruct Hs as (Hin & Hiss & Hreg & Hev & Hcl & Hcalls).
    repeat split; try done. simpl. intros cb' Hcb'.
    apply lookup_delete_Some in Hcb' as [_ Hcb']. by apply (Hev cb').
Qed.

Lemma stranded_deliver id callback data st :
  stranded id callback st.1 → stranded id callback (deliver data st).1.
Proof.
  intros (Hin & Hiss & Hreg & Hev & Hcl & Hcalls). unfold stranded.
  rewrite deliver_ios, deliver_globalEvents.
  split; [done|]. split; [done|]. split; [done|]. split; [|done].
  intros cb Hcb.
  apply (deliver_events (λ id', id' ≠ id) data st) in Hcb; [done| |].
  - intros [id' f] Hs Hf. simpl in *. intros ->.
    destruct f as [|e cb']; [done|]. by eapply Hcl.
  - intros cb' id' Hcb' ->. by eapply Hev.
Qed.

(** No call of the interface and no payload brings a stranded
    subscription back within reach. *)
Lemma stranded_step id callback st o :
  stranded id callback st.1 → stranded id callback (step st o).1.
Proof.
  intros Hs. destruct o; simpl; try (by apply stranded_log_call).
  - by apply stranded_TNSPusher_bind.
  - by apply stranded_TNSPusher_unbind.
  - done.
  - by apply stranded_connection_bind.
  - by apply stranded_connection_unbind.
  - by apply stranded_deliver.
Qed.

Lemma stranded_run id callback ops st :
  stranded id callback st.1 → stranded id callback (run ops st).1.
Proof.
  revert st. induction ops as [|o ops IH]; intros st Hst; [done|].
  apply IH. by apply stranded_step.
Qed.

End stranded.

Section double_bind.
Context `{Platform}.

Lemma fresh_not_installed p n :
  ids_fresh → ids_issued p → issued (ios p) ≤ n →
  callbackId n ∉ installed (ios p).
Proof.
  intros Hfresh (Hinst & _) Hn Hin. apply Hinst in Hin as (m & Hm & Heq).
  apply Hfresh in Heq. lia.
Qed.

(** C9: bind the same callback twice on a client, then unbind it.  The
    second bind installs a second subscription and replaces the recorded
    id; the unbind removes the second subscription only, the native
    object receiving no unbind for the first; and after any further calls
    on the client and its connection facade, and any payloads, the first
    subscription is still installed, has never been unbound, and its id is
    in neither registry, so no unbind can name it. *)
Theorem double_bind_strands_first_subscription callback p h ops :
  ids_fresh → ids_truthy → ids_issued p →
  let id1 := callbackId (issued (ios p)) in
  let id2 := callbackId (S (issued (ios p))) in
  let p1 := TNSPusher_bind callback p in
  let p2 := TNSPusher_bind callback p1 in
  let p3 := TNSPusher_unbind callback p2 in
  (globalCallbacks (ios p2) =
     globalCallbacks (ios p) ++
     [(id1, GlobalClosure callback); (id2, GlobalClosure callback)] ∧
   _globalEvents p1 !! callback = Some id1 ∧
   _globalEvents p2 !! callback = Some id2 ∧
   id1 ≠ id2) ∧
  (globalCallbacks (ios p3) =
     globalCallbacks (ios p) ++ [(id1, GlobalClosure callback)] ∧
   calls (ios p3) =
     calls (ios p) ++ [CallBind id1; CallBind id2; CallUnbind id2] ∧
   _globalEvents p3 !! callback = None) ∧
  (let st := run ops (p3, h) in
   (id1, GlobalClosure callback) ∈ globalCallbacks (ios st.1) ∧
   (CallUnbind id1 ∉ calls (ios st.1)) ∧
   (∀ cb, _globalEvents st.1 !! cb ≠ Some id1) ∧
   (∀ cb, events (connection st.1) !! cb ≠ Some id1)).
Proof.
  intros Hfresh Htruthy Hissued id1 id2 p1 p2 p3.
  assert (id1 ≠ id2) as Hne.
  { subst id1 id2. intros Heq%Hfresh. lia. }
  assert (id1 ∉ installed (ios p)) as Hid1 by (by apply fresh_not_installed).
  assert (id2 ∉ installed (ios p)) as Hid2
    by (apply fresh_not_installed; [done..|lia]).
  assert (¬ issued_before (ios p) id1) as Hnot1.
  { intros (m & Hm & Heq). apply Hfresh in Heq. lia. }
  assert (p3 = mkTNSPusher (Pusher_unbindWithCallbackId id2 (ios p2)) (_delegate p)
                 (delete callback (_globalEvents p2)) (_connection p)) as Hp3.
  { subst p3 p2 p1. unfold TNSPusher_unbind. rewrite !TNSPusher_bind_eq. simpl.
    by rewrite lookup_insert_eq, (Htruthy (S _)). }
  assert (globalCallbacks (ios p3) =
            globalCallbacks (ios p) ++ [(id1, GlobalClosure callback)]) as Hcb3.
  { rewrite Hp3. subst p2 p1. rewrite !TNSPusher_bind_eq. simpl.
    rewrite <- app_assoc, filter_app, filter_other_ids by done. simpl.
    rewrite filter_cons_True by exact Hne.
    rewrite filter_cons_False by (intros Hc; by apply Hc). done. }
  assert (calls (ios p3) =
            calls (ios p) ++ [CallBind id1; CallBind id2; CallUnbind id2]) as Hcalls3.
  { rewrite Hp3. subst p2 p1. rewrite !TNSPusher_bind_eq. simpl.
    by rewrite <- !app_assoc. }
  assert (_globalEvents p3 = delete callback (_globalEvents p)) as Hreg3.
  { rewrite Hp3. subst p2 p1. rewrite !TNSPusher_bind_eq. simpl.
    by rewrite insert_insert_eq, delete_insert_eq. }
  assert (connection p3 = connection p) as Hconn3 by (by rewrite Hp3).
  assert (issued (ios p3) = S (S (issued (ios p)))) as Hiss3 by (by rewrite Hp3).
  split; [|split].
  - subst p2 p1. rewrite !TNSPusher_bind_eq. simpl.
    rewrite !lookup_insert_eq, <- app_assoc. done.
  - split; [done|]. split; [done|]. rewrite Hreg3. apply lookup_delete_eq.
  - assert (stranded id1 callback p3) as Hstranded.
    { destruct Hissued as (Hinst & Hreg & Hev & Hcalls).
      unfold stranded. rewrite Hcb3, Hcalls3, Hreg3, Hconn3.
      split; [apply elem_of_app; right; by left|].
      split; [exists (issued (ios p)); split; [lia|done]|].
      split; [|split; [|split]].
      - intros cb Hcb. apply lookup_delete_Some in Hcb as [_ Hcb].
        by apply Hnot1, (Hreg cb).
      - intros cb Hcb. by apply Hnot1, (Hev cb).
      - intros e cb [Hold|Hnew]%elem_of_app.
        + apply Hid1, list_elem_of_fmap. by eexists (_, _).
        + by apply list_elem_of_singleton in Hnew.
      - rewrite not_elem_of_app. split; [intros Hin; by apply Hnot1, Hcalls|].
        rewrite !not_elem_of_cons. repeat split; try done; [congruence|].
        apply not_elem_of_nil. }
    cbn zeta.
    destruct (stranded_run Hfresh id1 callback ops (p3, h) Hstranded)
      as (Hin & _ & Hreg & Hev & _ & Hcalls).
    done.
Qed.

End double_bind.

(** C9 on a new client of the concrete platform: callback 7 is bound
    twice and unbound; then it is unbound again, a payload arrives, the
    connection facade unbinds it too, and the client disconnects.  The
    subscription "cb-0" of callback 7 is still installed. *)
Lemma double_bind_strands_first_subscription_witness :
  let p3 := TNSPusher_unbind 7
              (@TNSPusher_bind demo 7
                 (@TNSPusher_bind demo 7 (TNSPusher_new 0 "key" None))) in
  let st := @run demo [OpUnbind 7; OpDeliver (Some {[ "event" := "pusher:pong" ]});
                       OpConnectionUnbind "pong" 7; OpDisconnect]
              (p3, @mkHost demo [] []) in
  ("cb-0", GlobalClosure 7) ∈ globalCallbacks (ios st.1) ∧
  (CallUnbind "cb-0" ∉ calls (ios st.1)).
Proof.
  destruct (@double_bind_strands_first_subscription demo 7
              (TNSPusher_new 0 "key" None) (@mkHost demo [] [])
              [OpUnbind 7; OpDeliver (Some {[ "event" := "pusher:pong" ]});
               OpConnectionUnbind "pong" 7; OpDisconnect]
              demo_ids_fresh demo_ids_truthy
              (@ids_issued_new demo 0 "key" None))
    as (_ & _ & Hin & Hcalls & _).
  split; [exact Hin | exact Hcalls].
Defined.

(** * Further properties of the bridge *)

(** ** Global callbacks *)

Section global_callbacks.
Context `{Platform}.

#[local] Arguments fires : simpl never.


(** X2: [TNSPusher.bind] then [TNSPusher.unbind] of the same callback: the
    installed subscriptions are those of before, so a later payload calls
    what it would have called without the pair; the connection facade is
    untouched; the callback has no entry, also when it had one before the
    pair. *)
Theorem TNSPusher_bind_unbind_restores callback p h data :
  ids_fresh → ids_truthy → ids_issued p →
  let p' := TNSPusher_unbind callback (TNSPusher_bind callback p) in
  globalCallbacks (ios p') = globalCallbacks (ios p) ∧
  _globalEvents p' = delete callback (_globalEvents p) ∧
  _connection p' = _connection p ∧
  invoked (deliver data (p', h)).2 = invoked (deliver data (p, h)).2.
Proof.
  intros Hfresh Htruthy Hissued p'.
  assert (p' = mkTNSPusher
                 (Pusher_unbindWithCallbackId (callbackId (issued (ios p)))
                    (Pusher_bind (GlobalClosure callback) (ios p)).2)
                 (_delegate p) (delete callback (_globalEvents p))
                 (_connection p)) as Hp'.
  { subst p'. unfold TNSPusher_unbind. rewrite TNSPusher_bind_eq. simpl.
    rewrite lookup_insert_eq, Htruthy. by rewrite delete_insert_eq. }
  assert (globalCallbacks (ios p') = globalCallbacks (ios p)) as Hcb.
  { rewrite Hp'. simpl. rewrite filter_app, filter_other_ids.
    - rewrite filter_cons_False by (intros Hc; by apply Hc).
      by rewrite filter_nil, app_nil_r.
    - by apply fresh_not_installed. }
  split; [done|]. split; [by rewrite Hp'|]. split; [by rewrite Hp'|].
  rewrite !deliver_invoked. simpl. by rewrite Hcb.
Qed.

(** X3: [connect], [disconnect], [subscribe], [unsubscribe] and
    [unsubscribeAll] pass one call to the native object and bind or unbind
    nothing: registries, installed subscriptions and the connection facade
    are as before, so the callbacks bound earlier still get whatever
    payload arrives afterwards. *)
Theorem lifecycle_calls_keep_bindings o st data :
  lifecycle o →
  let st' := step st o in
  globalCallbacks (ios st'.1) = globalCallbacks (ios st.1) ∧
  _globalEvents st'.1 = _globalEvents st.1 ∧
  _connection st'.1 = _connection st.1 ∧
  st'.2 = st.2 ∧
  (∃ c, calls (ios st'.1) = calls (ios st.1) ++ [c] ∧ ∀ id, c ≠ CallUnbind id) ∧
  invoked (deliver data st').2 = invoked (deliver data st).2.
Proof.
  intros Hlife. destruct o; try done; simpl;
    (split; [done|]; split; [done|]; split; [done|]; split; [done|];
     split; [by eexists|]; by rewrite !deliver_invoked).
Qed.

End global_callbacks.

(** On the concrete platform: callback 7 is bound and unbound on a new
    client, and a payload then calls nothing. *)
Lemma TNSPusher_bind_unbind_restores_witness :
  invoked (@deliver demo (Some {[ "event" := "a" ]})
             (TNSPusher_unbind 7 (@TNSPusher_bind demo 7 (TNSPusher_new 0 "key" None)),
              @mkHost demo [] [])).2 = [].
Proof.
  exact (proj2 (proj2 (proj2
    (@TNSPusher_bind_unbind_restores demo 7 (TNSPusher_new 0 "key" None)
       (@mkHost demo [] []) (Some {[ "event" := "a" ]})
       demo_ids_fresh demo_ids_truthy (@ids_issued_new demo 0 "key" None))))).
Defined.

(** A disconnect between a bind and a payload: callback 7 is still called. *)
Lemma lifecycle_calls_keep_bindings_witness :
  invoked (@deliver demo (Some {[ "event" := "a" ]})
             (@step demo (@TNSPusher_bind demo 7 (TNSPusher_new 0 "key" None),
                          @mkHost demo [] []) OpDisconnect)).2 =
  [(7, @Parsed demo (Some {[ "event" := "a" ]}))].
Proof.
  exact (proj2 (proj2 (proj2 (proj2 (proj2
    (@lifecycle_calls_keep_bindings demo OpDisconnect
       (@TNSPusher_bind demo 7 (TNSPusher_new 0 "key" None), @mkHost demo [] [])
       (Some {[ "event" := "a" ]}) I)))))).
Defined.

(** ** The connection facade *)

Section facade.
Context `{Platform}.

#[local] Arguments fires : simpl never.

Lemma Closure_run_state id f data st :
  _state (connection (Closure_run id f data st).1) = _state (connection st.1).
Proof.
  destruct f as [callback|event callback]; simpl; [done|].
  pose proof (ConnectionClosure_run_state event callback id data
                (connection st.1) st.2) as Hrun.
  by destruct (ConnectionClosure_run _ _ _ _ _).
Qed.

Lemma deliver_state data st :
  _state (connection (deliver data st).1) = _state (connection st.1).
Proof.
  unfold deliver. generalize (globalCallbacks (ios st.1)). intros l.
  revert st. induction l as [|s l IH]; intros st; simpl; [done|].
  by rewrite IH, Closure_run_state.
Qed.

Lemma step_state st o :
  _state (connection (step st o).1) = _state (connection st.1).
Proof.
  destruct o; simpl; try done.
  - unfold TNSPusher_unbind. destruct (_globalEvents st.1 !! callback); [|done].
    by destruct (truthy _).
  - unfold on_connection, TNSPusherConnection_unbind.
    destruct (events (connection st.1) !! callback); [|done].
    by destruct (truthy _).
  - apply deliver_state.
Qed.

(** X4: [get state()]: no method of the client or of the facade and no
    payload changes the state the facade reports; it is what the delegate
    adapter wrote last ([undefined] on a client that was never notified). *)
Theorem state_written_by_delegate_only ops st :
  state (connection (run ops st).1) = state (connection st.1).
Proof.
  revert st. induction ops as [|o ops IH]; intros st; [done|].
  change (run (o :: ops) st) with (run ops (step st o)).
  rewrite IH. apply step_state.
Qed.

(** The closure of [TNSPusherConnection.bind] on a payload that is [null]
    or carries none of the three internal discriminators: it calls
    nothing and records nothing, whatever it was bound for. *)
Lemma ConnectionClosure_run_unmatched event callback id data st :
  unmatched data → ConnectionClosure_run event callback id data st = st.
Proof.
  unfold ConnectionClosure_run. destruct data as [d|]; [|done].
  intros (He & Hpi & Hpo).
  rewrite !bool_decide_eq_false_2; [done|tauto..].
Qed.

(** The same closure when it was bound for a logical event other than
    "error", "ping" and "pong": it calls nothing and records nothing on
    any payload. *)
Lemma ConnectionClosure_run_unknown_event event callback id data st :
  ¬ internal_event event → ConnectionClosure_run event callback id data st = st.
Proof.
  unfold ConnectionClosure_run, internal_event. intros Hevent.
  destruct data as [d|]; [|done].
  rewrite !bool_decide_eq_false_2; [done|tauto..].
Qed.

Lemma Closure_run_unmatched id f data st :
  unmatched data →
  (Closure_run id f data st).1 = match f with
                                 | GlobalClosure _ => st.1
                                 | ConnectionClosure _ _ => TNSPusher_connection st.1
                                 end ∧
  invoked (Closure_run id f data st).2 = invoked st.2 ++ global_calls data [(id, f)].
Proof.
  intros Hdata. destruct f as [callback|event callback]; simpl; [done|].
  rewrite ConnectionClosure_run_unmatched by done. by rewrite app_nil_r.
Qed.

Lemma foldl_Closure_run_unmatched data l st :
  unmatched data →
  let st' := foldl (λ st s, Closure_run s.1 s.2 data st) st l in
  connection st'.1 = connection st.1 ∧
  _globalEvents st'.1 = _globalEvents st.1 ∧
  invoked st'.2 = invoked st.2 ++ global_calls data l.
Proof.
  intros Hdata. revert st. induction l as [|[id f] l IH]; intros st; simpl.
  - by rewrite app_nil_r.
  - destruct (IH (Closure_run id f data st)) as (IH1 & IH2 & IH3).
    destruct (Closure_run_unmatched id f data st Hdata) as [Hst Hinv].
    rewrite IH1, IH2, IH3, Hinv, Closure_run_globalEvents, Hst.
    unfold global_calls. simpl. rewrite app_nil_r, <- app_assoc.
    by destruct f.
Qed.

(** X5: A payload that is [null], has no [event] entry or carries an [event]
    that is none of the three internal discriminators goes to the
    callbacks bound on the client only: the callbacks bound on the
    connection are not called and the connection registry is unchanged. *)
Theorem unmatched_payload_skips_connection data st :
  unmatched data →
  invoked (deliver data st).2 =
    invoked st.2 ++ global_calls data (globalCallbacks (ios st.1)) ∧
  events (connection (deliver data st).1) = events (connection st.1) ∧
  _globalEvents (deliver data st).1 = _globalEvents st.1.
Proof.
  intros Hdata.
  destruct (foldl_Closure_run_unmatched data (globalCallbacks (ios st.1)) st Hdata)
    as (Hconn & Hreg & Hinv).
  unfold deliver. by rewrite Hconn, Hreg, Hinv.
Qed.

End facade.

(** On the concrete platform: a payload without [event] entry, with one
    callback bound on the client and one on the connection for "ping". *)
Lemma unmatched_payload_skips_connection_witness :
  invoked (@deliver demo (Some {[ "price" := "42" ]})
             (@run demo [OpBind 1; OpConnectionBind "ping" 2]
                (TNSPusher_new 0 "key" None, @mkHost demo [] []))).2 =
  [(1, @Parsed demo (Some {[ "price" := "42" ]}))].
Proof.
  assert (@unmatched demo (Some {[ "price" := "42" ]})) as Hdata.
  { unfold unmatched, objectForKey. by rewrite lookup_singleton_ne. }
  exact (proj1 (@unmatched_payload_skips_connection demo
                  (Some {[ "price" := "42" ]})
                  (@run demo [OpBind 1; OpConnectionBind "ping" 2]
                     (TNSPusher_new 0 "key" None, @mkHost demo [] []))
                  Hdata)).
Defined.

(** ** Recorded ids name installed subscriptions *)

Section live.
Context `{Platform}.

Lemma NoDup_fst_inj {A B} (l : list (A * B)) k a b :
  NoDup l.*1 → (k, a) ∈ l → (k, b) ∈ l → a = b.
Proof.
  induction l as [|[k' c] l IH]; [by intros _ ?%elem_of_nil|].
  rewrite fmap_cons, NoDup_cons. simpl. intros [Hk' Hl] Ha Hb.
  apply elem_of_cons in Ha as [Ha|Ha]; apply elem_of_cons in Hb as [Hb|Hb].
  - congruence.
  - exfalso. apply Hk', list_elem_of_fmap. exists (k, b). by simplify_eq.
  - exfalso. apply Hk', list_elem_of_fmap. exists (k, a). by simplify_eq.
  - by apply IH.
Qed.

Lemma NoDup_fst_filter {A B} (P : A * B → Prop) `{∀ x, Decision (P x)}
    (l : list (A * B)) :
  NoDup l.*1 → NoDup (filter P l).*1.
Proof.
  intros Hl. eapply sublist_NoDup; [exact Hl|].
  apply fmap_sublist, sublist_filter.
Qed.

Lemma registry_live_log_call c p :
  registry_live p → registry_live (set_ios (log_call c (ios p)) p).
Proof. by intros (Hnd & Hreg & Hev). Qed.

Lemma NoDup_after_bind f (n : Pusher) :
  ids_fresh → (∀ id, id ∈ installed n → issued_before n id) →
  NoDup (globalCallbacks n).*1 →
  NoDup (globalCallbacks (Pusher_bind f n).2).*1.
Proof.
  intros Hfresh Hinst Hnd. simpl. rewrite fmap_app. apply NoDup_app.
  split; [done|]. split; [|apply NoDup_singleton].
  intros id Hid Hnew. apply list_elem_of_singleton in Hnew. subst id.
  apply Hinst in Hid. by eapply issued_before_fresh.
Qed.

Lemma registry_live_TNSPusher_bind callback p :
  ids_fresh → ids_issued p → registry_live p →
  registry_live (TNSPusher_bind callback p).
Proof.
  intros Hfresh (Hinst & _) (Hnd & Hreg & Hev). rewrite TNSPusher_bind_eq.
  split; [by apply NoDup_after_bind|].
  cbn [ios _globalEvents connection _connection]. split.
  - intros cb id. simpl. rewrite elem_of_app.
    destruct (decide (callback = cb)) as [->|Hne].
    + rewrite lookup_insert_eq. intros [= <-]. right. by left.
    + rewrite lookup_insert_ne by done. intros Hcb. left. by apply Hreg.
  - intros cb id Hcb. destruct (Hev cb id Hcb) as [e He].
    exists e. simpl. apply elem_of_app. by left.
Qed.

Lemma registry_live_connection_bind event callback p :
  ids_fresh → ids_issued p → registry_live p →
  registry_live (on_connection (TNSPusherConnection_bind event callback) p).
Proof.
  intros Hfresh (Hinst & _) (Hnd & Hreg & Hev). rewrite on_connection_bind.
  split; [by apply NoDup_after_bind|].
  cbn [ios _globalEvents connection _connection]. split.
  - intros cb id Hcb. simpl. apply elem_of_app. left. by apply Hreg.
  - intros cb id Hcb. destruct (Hev cb id Hcb) as [e He].
    exists e. simpl. apply elem_of_app. by left.
Qed.

Lemma registry_live_TNSPusher_unbind callback p :
  registry_live p → registry_live (TNSPusher_unbind callback p).
Proof.
  intros Hlive. unfold TNSPusher_unbind.
  destruct (_globalEvents p !! callback) as [id'|] eqn:Hlook; [|done].
  destruct (truthy id'); [|done].
  destruct Hlive as (Hnd & Hreg & Hev).
  pose proof (Hreg _ _ Hlook) as Hmine.
  split; [by apply NoDup_fst_filter|]. simpl. split.
  - intros cb id Hcb. apply lookup_delete_Some in Hcb as [Hne Hcb].
    apply list_elem_of_filter. split; [|by apply Hreg]. simpl. intros ->.
    pose proof (NoDup_fst_inj _ _ _ _ Hnd Hmine (Hreg _ _ Hcb)). congruence.
  - intros cb id Hcb. destruct (Hev cb id Hcb) as [e He]. exists e.
    apply list_elem_of_filter. split; [|done]. simpl. intros ->.
    pose proof (NoDup_fst_inj _ _ _ _ Hnd Hmine He). congruence.
Qed.

Lemma registry_live_connection_unbind event callback p :
  registry_live p →
  registry_live (on_connection (TNSPusherConnection_unbind event callback) p).
Proof.
  intros Hlive. unfold on_connection, TNSPusherConnection_unbind.
  destruct (events (connection p) !! callback) as [id'|] eqn:Hlook; [|done].
  destruct (truthy id'); [|done].
  destruct Hlive as (Hnd & Hreg & Hev).
  destruct (Hev _ _ Hlook) as [e' Hmine].
  split; [by apply NoDup_fst_filter|]. simpl. split.
  - intros cb id Hcb. apply list_elem_of_filter. split; [|by apply Hreg].
    simpl. intros ->.
    pose proof (NoDup_fst_inj _ _ _ _ Hnd Hmine (Hreg _ _ Hcb)). congruence.
  - intros cb id Hcb. apply lookup_delete_Some in Hcb as [Hne Hcb].
    destruct (Hev cb id Hcb) as [e He]. exists e.
    apply list_elem_of_filter. split; [|done]. simpl. intros ->.
    pose proof (NoDup_fst_inj _ _ _ _ Hnd Hmine He). congruence.
Qed.

(** The registry a delivery leaves, entry by entry: what was there, or a
    callback mapped to the id of a connection closure made for it. *)
Lemma Closure_run_entries (P : Callback → Handle → Prop) id f data st :
  (∀ e cb, f = ConnectionClosure e cb → P cb id) →
  (∀ cb id', events (connection st.1) !! cb = Some id' → P cb id') →
  ∀ cb id', events (connection (Closure_run id f data st).1) !! cb = Some id' →
            P cb id'.
Proof.
  intros Hid Hst cb id'. destruct f as [callback|event callback]; simpl.
  - apply Hst.
  - pose proof (ConnectionClosure_run_events event callback id data
                  (connection st.1) st.2) as Hcases.
    destruct (ConnectionClosure_run _ _ _ _ _) as [c h]. simpl in *.
    rewrite connection_set_connection.
    destruct Hcases as [-> | ->]; [apply Hst|].
    destruct (decide (callback = cb)) as [->|Hne].
    + rewrite lookup_insert_eq. intros [= <-]. by eapply Hid.
    + rewrite lookup_insert_ne by done. apply Hst.
Qed.

Lemma foldl_Closure_run_entries (P : Callback → Handle → Prop) data l st :
  (∀ id e cb, (id, ConnectionClosure e cb) ∈ l → P cb id) →
  (∀ cb id', events (connection st.1) !! cb = Some id' → P cb id') →
  ∀ cb id',
    events (connection (foldl (λ st s, Closure_run s.1 s.2 data st) st l).1) !! cb
    = Some id' → P cb id'.
Proof.
  revert st. induction l as [|[id f] l IH]; intros st Hl Hst; simpl; [done|].
  apply IH.
  - intros id0 e cb Hin. eapply Hl. by right.
  - apply Closure_run_entries; [|done]. intros e cb ->. eapply Hl. by left.
Qed.

Lemma registry_live_deliver data st :
  registry_live st.1 → registry_live (deliver data st).1.
Proof.
  intros (Hnd & Hreg & Hev). unfold registry_live.
  rewrite deliver_ios, deliver_globalEvents.
  split; [done|]. split; [done|].
  apply (foldl_Closure_run_entries
           (λ cb id, ∃ e, (id, ConnectionClosure e cb) ∈ globalCallbacks (ios st.1)));
    [|done].
  intros id e cb Hin. by exists e.
Qed.

Lemma registry_live_step st o :
  ids_fresh → ids_issued st.1 → registry_live st.1 → registry_live (step st o).1.
Proof.
  intros Hfresh Hissued Hlive.
  destruct o; simpl; try (by apply registry_live_log_call).
  - by apply registry_live_TNSPusher_bind.
  - by apply registry_live_TNSPusher_unbind.
  - done.
  - by apply registry_live_connection_bind.
  - by apply registry_live_connection_unbind.
  - by apply registry_live_deliver.
Qed.

Lemma registry_live_run ops st :
  ids_fresh → ids_issued st.1 → registry_live st.1 → registry_live (run ops st).1.
Proof.
  intros Hfresh. revert st. induction ops as [|o ops IH]; intros st Hi Hl; [done|].
  change (run (o :: ops) st) with (run ops (step st o)).
  apply IH; [by apply ids_issued_step | by apply registry_live_step].
Qed.

Lemma registry_live_new this apiKey options :
  registry_live (TNSPusher_new this apiKey options).
Proof.
  unfold registry_live, TNSPusher_new.
  destruct options as [o|]; simpl; (split; [apply NoDup_nil_2|]);
    split; intros cb id; by rewrite lookup_empty.
Qed.


(** X7: Whatever is called on a new client and its connection facade, and
    whatever payloads arrive: every id that is installed, recorded in
    either registry or passed to the native unbind was returned earlier by
    a bind of the native object; the bridge makes up no id. *)
Theorem bridge_uses_issued_ids_only this apiKey options h ops :
  ids_issued (run ops (TNSPusher_new this apiKey options, h)).1.
Proof. apply ids_issued_run. simpl. apply ids_issued_new. Qed.

End live.


Section others.
Context `{Platform}.

#[local] Arguments fires : simpl never.

Lemma TNSPusher_unbind_connection callback p :
  _connection (TNSPusher_unbind callback p) = _connection p.
Proof.
  unfold TNSPusher_unbind. destruct (_globalEvents p !! callback); [|done].
  by destruct (truthy _).
Qed.

Lemma TNSPusher_unbind_lookup_ne c1 c2 p :
  c1 ≠ c2 → _globalEvents (TNSPusher_unbind c1 p) !! c2 = _globalEvents p !! c2.
Proof.
  intros Hne. unfold TNSPusher_unbind.
  destruct (_globalEvents p !! c1); [|done].
  destruct (truthy _); [|done]. simpl. by rewrite lookup_delete_ne.
Qed.

Lemma installed_closure_fires data id callback st :
  (id, GlobalClosure callback) ∈ globalCallbacks (ios st.1) →
  (callback, Parsed (deserialize data)) ∈ invoked (deliver data st).2.
Proof.
  intros Hin. rewrite deliver_invoked. apply elem_of_app. right.
  apply list_elem_of_In, in_flat_map. exists (id, GlobalClosure callback).
  split; [by apply list_elem_of_In|]. by left.
Qed.

(** X8: [TNSPusher.unbind] of one callback leaves every other callback bound:
    in a state where recorded ids name installed subscriptions, another
    callback keeps its entry and its subscription, so it is still called
    on the next payload; and the subscriptions recorded in the connection
    registry stay installed. *)
Theorem TNSPusher_unbind_keeps_others c1 c2 id2 p h data :
  registry_live p → c1 ≠ c2 → _globalEvents p !! c2 = Some id2 →
  let p' := TNSPusher_unbind c1 p in
  _globalEvents p' !! c2 = Some id2 ∧
  (id2, GlobalClosure c2) ∈ globalCallbacks (ios p') ∧
  (c2, Parsed (deserialize data)) ∈ invoked (deliver data (p', h)).2 ∧
  _connection p' = _connection p ∧
  (∀ cb id, events (connection p) !! cb = Some id →
            ∃ e, (id, ConnectionClosure e cb) ∈ globalCallbacks (ios p')).
Proof.
  intros Hlive Hne Hc2 p'.
  destruct (registry_live_TNSPusher_unbind c1 p Hlive) as (_ & Hreg' & Hev').
  assert (_globalEvents p' !! c2 = Some id2) as Hc2'
    by (subst p'; by rewrite TNSPusher_unbind_lookup_ne).
  assert (_connection p' = _connection p) as Hconn
    by apply TNSPusher_unbind_connection.
  split; [done|]. split; [by apply Hreg'|].
  split; [eapply installed_closure_fires; by apply Hreg'|].
  split; [done|].
  intros cb id Hcb. apply Hev'. unfold connection. fold p'. by rewrite Hconn.
Qed.

End others.

(** On the concrete platform: callbacks 1 and 2 are bound on a new client,
    1 is unbound, and 2 still gets the next payload. *)
Lemma TNSPusher_unbind_keeps_others_witness :
  (2, @Parsed demo (Some {[ "event" := "a" ]})) ∈
  invoked (@deliver demo (Some {[ "event" := "a" ]})
             (TNSPusher_unbind 1
                (@run demo [OpBind 1; OpBind 2]
                   (TNSPusher_new 0 "key" None, @mkHost demo [] [])).1,
              @mkHost demo [] [])).2.
Proof.
  assert (registry_live
            (@run demo [OpBind 1; OpBind 2]
               (TNSPusher_new 0 "key" None, @mkHost demo [] [])).1) as Hlive.
  { apply (@registry_live_run demo); [apply demo_ids_fresh|..]; simpl.
    - apply (@ids_issued_new demo).
    - apply registry_live_new. }
  assert (_globalEvents
            (@run demo [OpBind 1; OpBind 2]
               (TNSPusher_new 0 "key" None, @mkHost demo [] [])).1 !! 2
          = Some "cb-1") as Hc2 by (by vm_compute).
  assert (1 ≠ 2) as Hne by lia.
  exact (proj1 (proj2 (proj2
    (@TNSPusher_unbind_keeps_others demo 1 2 "cb-1" _ (@mkHost demo [] [])
       (Some {[ "event" := "a" ]}) Hlive Hne Hc2)))).
Defined.

(** ** Connection binds that can or cannot be undone *)

Section undo.
Context `{Platform}.

#[local] Arguments fires : simpl never.

#[local] Instance internal_event_dec event : Decision (internal_event event).
Proof. unfold internal_event. apply _. Defined.

Lemma fires_unknown_event event callback data :
  ¬ internal_event event → fires data (ConnectionClosure event callback) = [].
Proof.
  intros Hevent. unfold fires.
  by rewrite ConnectionClosure_run_unknown_event.
Qed.

(** Only a closure made for "error", "ping" or "pong" can add its id to
    the connection registry. *)
Lemma Closure_run_events_internal (P : Handle → Prop) id f data st :
  (∀ e cb, f = ConnectionClosure e cb → internal_event e → P id) →
  (∀ cb id', events (connection st.1) !! cb = Some id' → P id') →
  ∀ cb id', events (connection (Closure_run id f data st).1) !! cb = Some id' → P id'.
Proof.
  intros Hid Hst. destruct f as [callback|event callback]; [done|].
  destruct (decide (internal_event event)) as [Hint|Hnot].
  - apply Closure_run_events; [|done]. intros _. by eapply Hid.
  - simpl. rewrite ConnectionClosure_run_unknown_event by done. exact Hst.
Qed.

Lemma foldl_Closure_run_events_internal (P : Handle → Prop) data l st :
  (∀ id e cb, (id, ConnectionClosure e cb) ∈ l → internal_event e → P id) →
  (∀ cb id', events (connection st.1) !! cb = Some id' → P id') →
  ∀ cb id',
    events (connection (foldl (λ st s, Closure_run s.1 s.2 data st) st l).1) !! cb
    = Some id' → P id'.
Proof.
  revert st. induction l as [|[id f] l IH]; intros st Hl Hst; simpl; [done|].
  apply IH.
  - intros id0 e cb Hin. eapply Hl. by right.
  - apply Closure_run_events_internal; [|done].
    intros e cb ->. eapply Hl. by left.
Qed.

Section muted.
Hypothesis Hfresh : ids_fresh.
Variables (id : Handle) (event : string) (callback : Callback).
Hypothesis Hevent : ¬ internal_event event.

Lemma muted_log_call c p :
  c ≠ CallUnbind id →
  muted id event callback p →
  muted id event callback (set_ios (log_call c (ios p)) p).
Proof.
  intros Hc (Hin & Huniq & Hiss & Hreg & Hev & Hcalls).
  repeat split; simpl; [done..|].
  rewrite not_elem_of_app, not_elem_of_cons. split; [done|]. split; [done|].
  apply not_elem_of_nil.
Qed.

Lemma muted_after_bind f p g c :
  muted id event callback (mkTNSPusher (ios p) (_delegate p) g c) →
  muted id event callback (mkTNSPusher (Pusher_bind f (ios p)).2 (_delegate p) g c).
Proof.
  intros (Hin & Huniq & Hiss & Hreg & Hev & Hcalls).
  pose proof (issued_before_fresh _ _ Hfresh Hiss) as Hne.
  unfold muted in *. cbn [ios _globalEvents connection _connection] in *.
  rewrite calls_bind. simpl globalCallbacks.
  split; [apply elem_of_app; by left|]. split.
  { intros f' [Hold|Hnew]%elem_of_app; [by apply Huniq|].
    apply list_elem_of_singleton in Hnew. by simplify_eq. }
  split; [apply (issued_before_bind f); by left|].
  split; [done|]. split; [done|].
  rewrite not_elem_of_app, not_elem_of_cons. split; [done|]. split; [done|].
  apply not_elem_of_nil.
Qed.

Lemma muted_after_unbind id' p g c :
  id' ≠ id →
  muted id event callback (mkTNSPusher (ios p) (_delegate p) g c) →
  muted id event callback
    (mkTNSPusher (Pusher_unbindWithCallbackId id' (ios p)) (_delegate p) g c).
Proof.
  intros Hne (Hin & Huniq & Hiss & Hreg & Hev & Hcalls).
  unfold muted in *. cbn [ios _globalEvents connection _connection] in *.
  simpl. split; [apply list_elem_of_filter; split; [|done]; simpl; congruence|].
  split; [intros f [_ Hf]%list_elem_of_filter; by apply Huniq|].
  split; [done|]. split; [done|]. split; [done|].
  rewrite not_elem_of_app, not_elem_of_cons. split; [done|].
  split; [congruence|]. apply not_elem_of_nil.
Qed.

Lemma muted_step st o :
  muted id event callback st.1 → muted id event callback (step st o).1.
Proof.
  intros Hm. destruct o as [| |cb|cb| | | | |e cb|e cb|data]; simpl;
    try (by apply muted_log_call).
  - rewrite TNSPusher_bind_eq. apply muted_after_bind.
    destruct Hm as (Hin & Huniq & Hiss & Hreg & Hev & Hcalls).
    pose proof (issued_before_fresh _ _ Hfresh Hiss) as Hne.
    repeat split; try done. simpl. intros cb'.
    destruct (decide (cb = cb')) as [->|Hcb].
    + rewrite lookup_insert_eq. congruence.
    + rewrite lookup_insert_ne by done. apply Hreg.
  - unfold TNSPusher_unbind.
    destruct (_globalEvents st.1 !! cb) as [id'|] eqn:Hlook; [|done].
    destruct (truthy id'); [|done].
    destruct Hm as (Hin & Huniq & Hiss & Hreg & Hev & Hcalls).
    apply muted_after_unbind; [intros ->; by apply (Hreg cb)|].
    repeat split; try done. simpl. intros cb' Hcb'.
    apply lookup_delete_Some in Hcb' as [_ Hcb']. by apply (Hreg cb').
  - done.
  - rewrite on_connection_bind. by apply muted_after_bind.
  - unfold on_connection, TNSPusherConnection_unbind.
    destruct (events (connection st.1) !! cb) as [id'|] eqn:Hlook; [|done].
    destruct (truthy id'); [|done].
    destruct Hm as (Hin & Huniq & Hiss & Hreg & Hev & Hcalls).
    apply muted_after_unbind; [intros ->; by apply (Hev cb)|].
    repeat split; try done. simpl. intros cb' Hcb'.
    apply lookup_delete_Some in Hcb' as [_ Hcb']. by apply (Hev cb').
  - destruct Hm as (Hin & Huniq & Hiss & Hreg & Hev & Hcalls). unfold muted.
    rewrite deliver_ios, deliver_globalEvents.
    split; [done|]. split; [done|]. split; [done|]. split; [done|].
    split; [|done]. intros cb Hcb.
    apply (foldl_Closure_run_events_internal (λ id', id' ≠ id) data
             (globalCallbacks (ios st.1)) st) in Hcb; [done| |].
    + intros id0 e cb0 Hin0 Hint ->. apply Huniq in Hin0. simplify_eq. done.
    + intros cb' id' Hcb' ->. by eapply Hev.
Qed.

Lemma muted_run ops st :
  muted id event callback st.1 → muted id event callback (run ops st).1.
Proof.
  revert st. induction ops as [|o ops IH]; intros st Hst; [done|].
  apply IH. by apply muted_step.
Qed.

End muted.

(** X9: [TNSPusherConnection.bind] with a logical event other than "error",
    "ping" and "pong" (say "connected"): the subscription it installs
    calls the callback on no payload, never records its id, and therefore
    stays installed and is never unbound, whatever is called on the client
    and its connection facade afterwards. *)
Theorem unknown_event_bind_is_permanent event callback p h ops :
  ids_fresh → ids_issued p → ¬ internal_event event →
  let id := callbackId (issued (ios p)) in
  let p1 := on_connection (TNSPusherConnection_bind event callback) p in
  let st := run ops (p1, h) in
  (∀ data, fires data (ConnectionClosure event callback) = []) ∧
  (id, ConnectionClosure event callback) ∈ globalCallbacks (ios st.1) ∧
  (CallUnbind id ∉ calls (ios st.1)) ∧
  (∀ cb, events (connection st.1) !! cb ≠ Some id).
Proof.
  intros Hfresh Hissued Hevent id p1 st.
  split; [intros data; by apply fires_unknown_event|].
  assert (¬ issued_before (ios p) id) as Hnot.
  { intros (m & Hm & Heq). apply Hfresh in Heq. lia. }
  assert (muted id event callback p1) as Hm.
  { destruct Hissued as (Hinst & Hreg & Hev & Hcalls).
    subst p1. rewrite on_connection_bind. unfold muted.
    cbn [ios _globalEvents connection _connection]. rewrite calls_bind.
    simpl globalCallbacks.
    split; [apply elem_of_app; right; by left|]. split.
    { intros f [Hold|Hnew]%elem_of_app.
      - exfalso. apply Hnot, Hinst, list_elem_of_fmap. by exists (id, f).
      - apply list_elem_of_singleton in Hnew. by simplify_eq. }
    split; [apply (issued_before_bind (ConnectionClosure event callback)); by right|].
    split; [intros cb Hcb; by apply Hnot, (Hreg cb)|].
    split; [intros cb Hcb; by apply Hnot, (Hev cb)|].
    rewrite not_elem_of_app, not_elem_of_cons.
    split; [intros Hin; by apply Hnot, Hcalls|]. split; [done|].
    apply not_elem_of_nil. }
  destruct (muted_run Hfresh id event callback Hevent ops (p1, h) Hm)
    as (Hin & _ & _ & _ & Hev & Hcalls).
  done.
Qed.

End undo.

(** On the concrete platform: callback 7 is bound for "connected" on a new
    client; after payloads and two unbinds its subscription is there. *)
Lemma unknown_event_bind_is_permanent_witness :
  ("cb-0", ConnectionClosure "connected" 7) ∈
  globalCallbacks
    (ios (@run demo [OpDeliver (Some {[ "event" := "pusher:ping" ]});
                     OpConnectionUnbind "connected" 7; OpUnbind 7]
            (on_connection (@TNSPusherConnection_bind demo "connected" 7)
               (TNSPusher_new 0 "key" None), @mkHost demo [] [])).1).
Proof.
  assert (¬ internal_event "connected") as Hevent.
  { unfold internal_event. intros [Hc|[Hc|Hc]]; discriminate Hc. }
  exact (proj1 (proj2
    (@unknown_event_bind_is_permanent demo "connected" 7
       (TNSPusher_new 0 "key" None) (@mkHost demo [] [])
       [OpDeliver (Some {[ "event" := "pusher:ping" ]});
        OpConnectionUnbind "connected" 7; OpUnbind 7]
       demo_ids_fresh (@ids_issued_new demo 0 "key" None) Hevent))).
Defined.

Section recorded.
Context `{Platform}.

#[local] Arguments fires : simpl never.







End recorded.



(** ** The constructor and the delegate adapter *)

(** X12: [new TNSPusher(apiKey, options)]: the adapter it installs on the
    native object is the one it keeps, and the adapter's owner is the new
    client itself.  So a state change reported to the native object's
    delegate lands in the facade of that client, which is created by the
    notification if the program never asked for it; the new client has no
    binding, and reports no state before. *)
Theorem constructor_wires_delegate this apiKey options old new_ heap :
  let p := TNSPusher_new this apiKey options in
  WeakRef_get this heap = Some p →
  delegate (ios p) = Some (_delegate p) ∧
  _owner (_delegate p) = this ∧
  _globalEvents p = ∅ ∧
  globalCallbacks (ios p) = [] ∧
  state (connection p) = None ∧
  changedConnectionStateFromTo (_delegate p) old new_ heap =
    <[this := mkTNSPusher (ios p) (_delegate p) ∅
                (Some (mkTNSPusherConnection (Some (_getState new_)) ∅))]> heap.
Proof.
  intros p Hheap. subst p. unfold changedConnectionStateFromTo.
  destruct options as [o|]; simpl in *; by rewrite Hheap.
Qed.

(** The heap holds the client constructed at address 3. *)
Lemma constructor_wires_delegate_witness :
  changedConnectionStateFromTo (_delegate (TNSPusher_new 3 "key" None))
    Connecting Connected {[ 3 := TNSPusher_new 3 "key" None ]} !! 3 =
  Some (mkTNSPusher (set_delegate (initWithOwner 3) (initWithKey "key"))
          (initWithOwner 3) ∅
          (Some (mkTNSPusherConnection (Some CONNECTED) ∅))).
Proof.
  pose proof (constructor_wires_delegate 3 "key" None Connecting Connected
                {[ 3 := TNSPusher_new 3 "key" None ]} (lookup_singleton_eq _ _))
    as (_ & _ & _ & _ & _ & Hchanged).
  rewrite Hchanged. apply lookup_insert_eq.
Defined.

Lemma changedConnectionStateFromTo_alive self old new_ heap owner :
  heap !! _owner self = Some owner →
  changedConnectionStateFromTo self old new_ heap !! _owner self =
  Some (mkTNSPusher (ios owner) (_delegate owner) (_globalEvents owner)
          (Some (mkTNSPusherConnection (Some (_getState new_))
                   (events (connection owner))))).
Proof.
  intros Howner. unfold changedConnectionStateFromTo, WeakRef_get.
  rewrite Howner. apply lookup_insert_eq.
Qed.

(** X13: A series of state changes reported while the owner is alive: the
    facade reports the translation of the last one; the old state of each
    notification is ignored; the registries and the native object of the
    owner are as before the series. *)
Theorem last_notification_wins self ns old new_ heap owner :
  WeakRef_get (_owner self) heap = Some owner →
  notify_all self (ns ++ [(old, new_)]) heap !! _owner self =
  Some (mkTNSPusher (ios owner) (_delegate owner) (_globalEvents owner)
          (Some (mkTNSPusherConnection (Some (_getState new_))
                   (events (connection owner))))).
Proof.
  unfold notify_all, WeakRef_get. revert heap owner.
  induction ns as [|[o n] ns IH]; intros heap owner Howner; simpl.
  - by apply changedConnectionStateFromTo_alive.
  - unfold notify at 2. simpl.
    rewrite (IH _ _ (changedConnectionStateFromTo_alive self o n heap owner Howner)).
    done.
Qed.

(** Connecting, connected, then a reconnect. *)
Lemma last_notification_wins_witness :
  notify_all (initWithOwner 0)
    [(OtherConnectionState 3, Connecting); (Connecting, Connected);
     (Connected, Reconnecting)]
    {[ 0 := TNSPusher_new 0 "key" None ]} !! 0 =
  Some (mkTNSPusher (ios (TNSPusher_new 0 "key" None)) (initWithOwner 0) ∅
          (Some (mkTNSPusherConnection (Some RECONNECTING) ∅))).
Proof.
  exact (last_notification_wins (initWithOwner 0)
           [(OtherConnectionState 3, Connecting); (Connecting, Connected)]
           Connected Reconnecting {[ 0 := TNSPusher_new 0 "key" None ]}
           (TNSPusher_new 0 "key" None) (lookup_singleton_eq _ _)).
Defined.

(** X14: The constructor's endpoint when no usable [host] is given: with no
    options the native client is built from the key alone; with options
    whose [host] is missing or empty the endpoint is the cluster's if
    [cluster] is non-empty and [null] otherwise; the two flags default to
    false when missing, and the JSON flag is always false. *)
Theorem constructor_without_host this apiKey options :
  truthy_opt (host options) = false →
  clientOptions (ios (TNSPusher_new this apiKey None)) = None ∧
  endpoint (TNSPusher_new this apiKey None) = None ∧
  (∀ c, cluster options = Some c → truthy c = true →
        endpoint (TNSPusher_new this apiKey (Some options)) = Some (initWithCluster c)) ∧
  (truthy_opt (cluster options) = false →
   endpoint (TNSPusher_new this apiKey (Some options)) = None) ∧
  (∃ o, clientOptions (ios (TNSPusher_new this apiKey (Some options))) = Some o ∧
        opt_attemptToReturnJSONObject o = false ∧
        opt_ocAuthMethod o = initWithType 4 ∧
        opt_port o = port options ∧
        opt_activityTimeout o = activityTimeout options ∧
        (autoReconnect options = None → opt_autoReconnect o = false) ∧
        (encrypted options = None → opt_encrypted o = false)).
Proof.
  intros Hhost. split; [done|]. split; [done|].
  unfold endpoint. simpl. unfold constructor_host. rewrite Hhost.
  split; [|split].
  - intros c Hc Htrue. rewrite Hc. simpl. by rewrite Htrue.
  - by intros ->.
  - eexists. split; [done|]. simpl. repeat split; by intros ->.
Qed.

(** The options of the spec's scenario, [{cluster: "mt1", encrypted: true}]. *)
Lemma constructor_without_host_witness :
  endpoint (TNSPusher_new 0 "key"
              (Some (mkOptions (Some "mt1") None None (Some true) None None)))
  = Some (initWithCluster "mt1").
Proof.
  exact (proj1 (proj2 (proj2
    (constructor_without_host 0 "key"
       (mkOptions (Some "mt1") None None (Some true) None None) eq_refl)))
    "mt1" eq_refl eq_refl).
Defined.

(** ** Channel wrappers *)

Section channels.
Context `{Platform}.

Lemma TNSPusherChannel_bind_eq event callback ch :
  TNSPusherChannel_bind event callback ch =
  mkTNSPusherChannel
    (PusherChannel_bindWithEventName event LogCalled (channel_ios ch)).2
    (<[callback := callbackId (channelIssued (channel_ios ch))]> (_channelEvents ch)).
Proof. done. Qed.


Section channel_stranded.
Hypothesis Hfresh : ids_fresh.

Lemma channel_issued_before_fresh c id :
  channel_issued_before c id → id ≠ callbackId (channelIssued c).
Proof. intros (n & Hn & ->) Heq. apply Hfresh in Heq. lia. Qed.

Lemma channel_stranded_step event id ch o :
  channel_stranded event id ch → channel_stranded event id (channel_step ch o).
Proof.
  intros (Hin & Hiss & Hreg & Hcalls).
  pose proof (channel_issued_before_fresh _ _ Hiss) as Hne.
  destruct o as [e cb|e cb]; simpl.
  - rewrite TNSPusherChannel_bind_eq. unfold channel_stranded. simpl.
    split; [apply elem_of_app; by left|]. split.
    { destruct Hiss as (n & Hn & ->). exists n. simpl. split; [lia|done]. }
    split.
    + intros cb'. destruct (decide (cb = cb')) as [->|Hcb].
      * rewrite lookup_insert_eq. congruence.
      * rewrite lookup_insert_ne by done. apply Hreg.
    + intros e'. rewrite not_elem_of_app, not_elem_of_cons.
      split; [apply Hcalls|]. split; [done|]. apply not_elem_of_nil.
  - unfold TNSPusherChannel_unbind.
    destruct (_channelEvents ch !! cb) as [id'|] eqn:Hlook; [|done].
    destruct (truthy id'); [|done].
    assert (id' ≠ id) as Hid' by (intros ->; by apply (Hreg cb)).
    unfold channel_stranded. simpl.
    split; [apply list_elem_of_filter; split; [simpl; intros [_ Heq]; congruence|done]|].
    split; [done|]. split.
    + intros cb' Hcb'. apply lookup_delete_Some in Hcb' as [_ Hcb'].
      by apply (Hreg cb').
    + intros e'. rewrite not_elem_of_app, not_elem_of_cons.
      split; [apply Hcalls|]. split; [congruence|]. apply not_elem_of_nil.
Qed.

Lemma channel_stranded_run event id ops ch :
  channel_stranded event id ch → channel_stranded event id (channel_run ops ch).
Proof.
  revert ch. induction ops as [|o ops IH]; intros ch Hch; [done|].
  apply IH. by apply channel_stranded_step.
Qed.

End channel_stranded.

(** X16: [TNSPusherChannel.bind] twice with the same callback, then [unbind]:
    the second bind replaces the recorded id, the unbind asks the native
    channel to remove the second block only, and whatever binds and unbinds
    follow on the wrapper, the first block stays bound on the channel and
    no unbind ever names its id. *)
Theorem channel_double_bind_strands_first event callback ch ops :
  ids_fresh → ids_truthy → channel_ids_issued ch →
  let id1 := callbackId (channelIssued (channel_ios ch)) in
  let id2 := callbackId (S (channelIssued (channel_ios ch))) in
  let ch3 := TNSPusherChannel_unbind event callback
               (TNSPusherChannel_bind event callback
                  (TNSPusherChannel_bind event callback ch)) in
  channelCalls (channel_ios ch3) =
    channelCalls (channel_ios ch) ++
    [CallChannelBind event id1; CallChannelBind event id2;
     CallChannelUnbind event id2] ∧
  _channelEvents ch3 !! callback = None ∧
  let ch' := channel_run ops ch3 in
  (event, (id1, LogCalled)) ∈ eventHandlers (channel_ios ch') ∧
  (∀ e, CallChannelUnbind e id1 ∉ channelCalls (channel_ios ch')) ∧
  (∀ cb, _channelEvents ch' !! cb ≠ Some id1).
Proof.
  intros Hfresh Htruthy (Hhandlers & Hreg & Hlog) id1 id2 ch3.
  assert (id1 ≠ id2) as Hne.
  { subst id1 id2. intros Heq%Hfresh. lia. }
  assert (¬ channel_issued_before (channel_ios ch) id1) as Hnot.
  { intros (m & Hm & Heq). apply Hfresh in Heq. lia. }
  assert (ch3 = mkTNSPusherChannel
                  (PusherChannel_unbindWithEventName event id2
                     (PusherChannel_bindWithEventName event LogCalled
                        (PusherChannel_bindWithEventName event LogCalled
                           (channel_ios ch)).2).2)
                  (delete callback (_channelEvents ch))) as Hch3.
  { subst ch3. unfold TNSPusherChannel_unbind. rewrite !TNSPusherChannel_bind_eq.
    simpl. rewrite lookup_insert_eq, (Htruthy (S _)).
    by rewrite insert_insert_eq, delete_insert_eq. }
  assert (channelCalls (channel_ios ch3) =
            channelCalls (channel_ios ch) ++
            [CallChannelBind event id1; CallChannelBind event id2;
             CallChannelUnbind event id2]) as Hcalls3.
  { rewrite Hch3. simpl. by rewrite <- !app_assoc. }
  split; [done|]. split; [rewrite Hch3; apply lookup_delete_eq|].
  assert (channel_stranded event id1 ch3) as Hstranded.
  { unfold channel_stranded. rewrite Hcalls3. rewrite Hch3. simpl.
    split.
    { apply list_elem_of_filter. split; [simpl; intros [_ Heq]; by apply Hne|].
      apply elem_of_app. left. apply elem_of_app. right. by left. }
    split; [exists (channelIssued (channel_ios ch)); split; [simpl; lia|done]|].
    split.
    - intros cb Hcb. apply lookup_delete_Some in Hcb as [_ Hcb].
      by apply Hnot, (Hreg cb).
    - intros e. rewrite not_elem_of_app. split.
      + intros Hin. by apply Hnot, (Hlog e).
      + rewrite !not_elem_of_cons. repeat split; try done; [congruence|].
        apply not_elem_of_nil. }
  cbn zeta.
  destruct (channel_stranded_run Hfresh event id1 ops ch3 Hstranded)
    as (Hin & _ & Hreg' & Hcalls').
  done.
Qed.

End channels.

Section channel_round_trip.
Context `{Platform}.

Lemma channel_ids_issued_subscribe name p :
  channel_ids_issued (TNSPusher_subscribe name p).1.
Proof.
  unfold channel_ids_issued. simpl. repeat split.
  - by intros eh ?%elem_of_nil.
  - intros cb id. by rewrite lookup_empty.
  - by intros e id ?%elem_of_nil.
Qed.

Lemma filter_other_handlers event id
    (l : list (string * (Handle * ChannelClosure))) :
  (∀ eh, eh ∈ l → eh.2.1 ≠ id) →
  filter (λ eh, ¬ (eh.1 = event ∧ eh.2.1 = id)) l = l.
Proof.
  intros Hl. induction l as [|eh l IH]; [done|].
  rewrite filter_cons_True.
  - rewrite IH; [done|]. intros eh' Hin. apply Hl. by right.
  - intros [_ Heq]. apply (Hl eh); [by left|done].
Qed.

(** X17: [TNSPusherChannel.bind] then [TNSPusherChannel.unbind] with the same
    event and callback: the blocks bound on the native channel are those
    of before, the native channel saw one bind and one unbind of the same
    id under that event, and the callback has no entry (also when it had
    one before the pair).  A payload afterwards writes as many "called"
    lines as it would have written before the pair. *)
Theorem TNSPusherChannel_bind_unbind_restores event callback ch data h e :
  ids_fresh → ids_truthy → channel_ids_issued ch →
  let id := callbackId (channelIssued (channel_ios ch)) in
  let ch' := TNSPusherChannel_unbind event callback
               (TNSPusherChannel_bind event callback ch) in
  eventHandlers (channel_ios ch') = eventHandlers (channel_ios ch) ∧
  _channelEvents ch' = delete callback (_channelEvents ch) ∧
  channelCalls (channel_ios ch') =
    channelCalls (channel_ios ch) ++
    [CallChannelBind event id; CallChannelUnbind event id] ∧
  deliver_channel e data ch' h = deliver_channel e data ch h.
Proof.
  intros Hfresh Htruthy (Hhandlers & _) id ch'.
  assert (ch' = mkTNSPusherChannel
                  (PusherChannel_unbindWithEventName event id
                     (PusherChannel_bindWithEventName event LogCalled
                        (channel_ios ch)).2)
                  (delete callback (_channelEvents ch))) as Hch'.
  { subst ch'. unfold TNSPusherChannel_unbind. rewrite TNSPusherChannel_bind_eq.
    simpl. rewrite lookup_insert_eq, Htruthy. by rewrite delete_insert_eq. }
  assert (eventHandlers (channel_ios ch') = eventHandlers (channel_ios ch)) as Heh.
  { rewrite Hch'. simpl. rewrite filter_app, filter_other_handlers.
    - rewrite filter_cons_False by (simpl; intros Hc; by apply Hc).
      by rewrite filter_nil, app_nil_r.
    - intros eh Hin. apply (channel_issued_before_fresh Hfresh). by apply Hhandlers. }
  split; [done|]. split; [by rewrite Hch'|]. split.
  - rewrite Hch'. simpl. by rewrite <- app_assoc.
  - unfold deliver_channel. by rewrite Heh.
Qed.

End channel_round_trip.

(** On the concrete platform, on a channel just returned by [subscribe]. *)
Lemma TNSPusherChannel_bind_unbind_restores_witness :
  let ch := (TNSPusher_subscribe "order-42" (TNSPusher_new 0 "key" None)).1 in
  eventHandlers
    (channel_ios (TNSPusherChannel_unbind "price-update" 1
                    (@TNSPusherChannel_bind demo "price-update" 1 ch))) = [].
Proof.
  exact (proj1
    (@TNSPusherChannel_bind_unbind_restores demo "price-update" 1
       (TNSPusher_subscribe "order-42" (TNSPusher_new 0 "key" None)).1
       None (@mkHost demo [] []) "price-update"
       demo_ids_fresh demo_ids_truthy
       (@channel_ids_issued_subscribe demo "order-42" (TNSPusher_new 0 "key" None)))).
Defined.


(** Callback 1 bound twice for "price-update" and unbound, then unbound
    again and bound once more: block "cb-0" is still on the channel. *)
Lemma channel_double_bind_strands_first_witness :
  let ch := (TNSPusher_subscribe "order-42" (TNSPusher_new 0 "key" None)).1 in
  let ch3 := TNSPusherChannel_unbind "price-update" 1
               (@TNSPusherChannel_bind demo "price-update" 1
                  (@TNSPusherChannel_bind demo "price-update" 1 ch)) in
  ("price-update", ("cb-0", LogCalled)) ∈
  eventHandlers
    (channel_ios (@channel_run demo [ChannelUnbind "price-update" 1;
                                     ChannelBind "price-update" 1] ch3)).
Proof.
  exact (proj1 (proj2 (proj2
    (@channel_double_bind_strands_first demo "price-update" 1
       (TNSPusher_subscribe "order-42" (TNSPusher_new 0 "key" None)).1
       [ChannelUnbind "price-update" 1; ChannelBind "price-update" 1]
       demo_ids_fresh demo_ids_truthy
       (@channel_ids_issued_subscribe demo "order-42" (TNSPusher_new 0 "key" None)))))).
Defined.
